(** * wayland-debug: the command-line driver (main.py)

    A shallow embedding of [main.py]: [interactive_shell], [parse_messages],
    [piped_input_main], [file_input_main] and [main].

    The driver owns no protocol logic.  Everything it does is a call on one
    of its collaborators (the session, the output object, the matcher
    module, the trace decoder, the gdb plugin) or on a Python builtin
    ([input], [open]).  The embedding therefore gives each driver function
    two results: the value (or exception) it finishes with, and the
    chronological list of the calls it made.  The collaborators themselves
    are interfaces (type classes), so every theorem holds for any session,
    matcher parser and decoder. *)

From Stdlib Require Import List String Ascii ZArith Bool Arith Lia DecimalString.
Import ListNotations.
Local Open Scope string_scope.
Local Open Scope list_scope.

(** ** Data *)

(** Connection ids are dictionary keys in the driver; timestamps are only
    stored and passed on, never computed with. *)
Definition ConnId := Z.
Definition Time := Z.

(** Argument values of a message record.  The driver never looks at them. *)
Inductive Arg : Type :=
| ArgInt (n : Z)
| ArgStr (s : string)
| ArgObject (id : Z)
| ArgNewObject (id : Z).

(** A decoded message record.  [main.py] reads [msg.timestamp], [msg.name]
    and [msg.sent]; the remaining fields are carried along untouched. *)
Record Message : Type := {
  timestamp : Time;
  sent : bool;
  obj_id : Z;
  name : string;
  msg_args : list Arg
}.

(** An open text file: its lines. *)
Definition File := list string.

(** What the builtin [open(path)] does: hand back the file or raise. *)
Inductive OpenResult : Type :=
| Opened (input_file : File)
| NoSuchFile
| OtherOSError.

(** The process environment the driver runs in. *)
Record Environ : Type := {
  check_gdb : bool;
  fs_open : string -> OpenResult;
  stdin : File
}.

(** The parsed command line ([argparse] namespace). *)
Record Args : Type := {
  matcher_help : bool;
  verbose : bool;
  path : option string;
  supress : bool;
  color_flag : bool;
  no_color : bool;
  f : option string;
  b : option string;
  gdb : bool
}.

(** Python truthiness of an optional string argument ([if args.f:]):
    [None] and the empty string are both false. *)
Definition truthy (o : option string) : option string :=
  match o with
  | Some s => if String.eqb s "" then None else Some s
  | None => None
  end.

(** ** The dictionary [known_connections]

    Python dictionaries keep insertion order, and the driver closes the
    connections in that order, so the dictionary is an association list. *)
Definition Dict := list (ConnId * bool).

Definition dict_contains (d : Dict) (k : ConnId) : bool :=
  existsb (fun e => Z.eqb (fst e) k) d.

Fixpoint dict_set (d : Dict) (k : ConnId) (v : bool) : Dict :=
  match d with
  | [] => [(k, v)]
  | (k', v') :: rest =>
      if Z.eqb k' k then (k', v) :: rest else (k', v') :: dict_set rest k v
  end.

Definition dict_keys (d : Dict) : list ConnId := map fst d.

(** ** Exceptions and results *)

Inductive Exn : Type :=
| EOFError
| FileNotFoundError
| OSError
| AssertionError (msg : string)
| SystemExit (code : Z).

Inductive Result (A : Type) : Type :=
| Ok (a : A)
| Raise (e : Exn).
Arguments Ok {A} a.
Arguments Raise {A} e.

Inductive Stream : Type :=
| GdbOut
| GdbErr
| StdStdout
| StdStderr.

(** ** Collaborators *)

(** The [matcher] module: the two constants, the parser (which raises
    [RuntimeError] with a message, [inl], or returns a matcher, [inr]),
    [simplify] and [str]. *)
Class MatcherModule (Matcher : Type) : Type := {
  always : Matcher;
  never : Matcher;
  parse : string -> string + Matcher;
  simplify : Matcher -> Matcher;
  str : Matcher -> string
}.

(** The session object.  [Session_init] is the constructor
    [Session(filter_matcher, stop_matcher, output)]; [session.out] is that
    output object, so calls through it are calls on the output.  Every
    method may change the session; the two queries also return their
    answer.  The methods return normally. *)
Class Session (Matcher S : Type) : Type := {
  Session_init : Matcher -> Matcher -> S;
  open_connection : S -> ConnId -> option bool -> Time -> S;
  message : S -> ConnId -> Message -> S;
  close_connection : S -> ConnId -> Time -> S;
  stopped : S -> bool * S;
  quit : S -> bool * S;
  command : S -> string -> S
}.

(** The other imports: the trace decoder [parse.file] (the records it
    yields for a file), [util.color] and the gdb plugin's entry point. *)
Class Imports (S : Type) : Type := {
  parse_file : File -> list (ConnId * Message);
  color : string -> string -> string;
  gdb_plugin_main : S -> Exn + S
}.

(** ** Calls made by the driver *)

Inductive Call (Matcher : Type) : Type :=
| OutputNew (verbose unprocessed_output : bool) (out_stream err_stream : Stream)
| OutputLog (s : string)
| OutputWarn (s : string)
| OutputError (s : string)
| SessionNew (filter_matcher stop_matcher : Matcher)
| SessionOpen (conn_id : ConnId) (is_server : option bool) (time : Time)
| SessionMessage (conn_id : ConnId) (msg : Message)
| SessionClose (conn_id : ConnId) (time : Time)
| SessionStopped (answer : bool)
| SessionQuit (answer : bool)
| SessionCommand (cmd : string)
| Input (prompt : string) (line : option string)
| Open (file_path : string) (r : OpenResult)
| FileClose
| SetColorOutput (val : bool)
| SetVerbose (val : bool)
| MatcherPrintHelp
| ProtocolLoadAll
| GdbOutputStreams
| GdbPluginMain
| TracebackPrintExc.
Arguments OutputNew {Matcher}.
Arguments OutputLog {Matcher}.
Arguments OutputWarn {Matcher}.
Arguments OutputError {Matcher}.
Arguments SessionNew {Matcher}.
Arguments SessionOpen {Matcher}.
Arguments SessionMessage {Matcher}.
Arguments SessionClose {Matcher}.
Arguments SessionStopped {Matcher}.
Arguments SessionQuit {Matcher}.
Arguments SessionCommand {Matcher}.
Arguments Input {Matcher}.
Arguments Open {Matcher}.
Arguments FileClose {Matcher}.
Arguments SetColorOutput {Matcher}.
Arguments SetVerbose {Matcher}.
Arguments MatcherPrintHelp {Matcher}.
Arguments ProtocolLoadAll {Matcher}.
Arguments GdbOutputStreams {Matcher}.
Arguments GdbPluginMain {Matcher}.
Arguments TracebackPrintExc {Matcher}.

(** ** The driver monad: calls made so far, then a value or an exception *)

Definition M (Matcher A : Type) : Type := (list (Call Matcher) * Result A)%type.

Definition ret {Matcher A} (a : A) : M Matcher A := ([], Ok a).

Definition bind {Matcher A B} (m : M Matcher A) (k : A -> M Matcher B)
  : M Matcher B :=
  match m with
  | (calls, Ok a) => let (calls', r) := k a in (calls ++ calls', r)
  | (calls, Raise e) => (calls, Raise e)
  end.

Definition call {Matcher} (c : Call Matcher) : M Matcher unit := ([c], Ok tt).

Definition raise {Matcher A} (e : Exn) : M Matcher A := ([], Raise e).

(** [try: body except: handler] for the exceptions [catches] selects. *)
Definition try_except {Matcher A} (body : M Matcher A) (catches : Exn -> bool)
  (handler : M Matcher A) : M Matcher A :=
  match body with
  | (calls, Ok a) => (calls, Ok a)
  | (calls, Raise e) =>
      if catches e
      then let (calls', r) := handler in (calls ++ calls', r)
      else (calls, Raise e)
  end.

Definition when {Matcher} (c : bool) (m : M Matcher unit) : M Matcher unit :=
  if c then m else ret tt.

Declare Scope driver_scope.
Delimit Scope driver_scope with driver.
Notation "x <- c ;; k" := (bind c (fun x => k))
  (at level 61, c at next level, right associativity) : driver_scope.
Notation "' pat <- c ;; k" := (bind c (fun x => match x with pat => k end))
  (at level 61, pat pattern, c at next level, right associativity) : driver_scope.
Notation "c ;; k" := (bind c (fun _ => k))
  (at level 61, right associativity) : driver_scope.
Local Open Scope driver_scope.

Definition calls_of {Matcher A} (m : M Matcher A) : list (Call Matcher) := fst m.
Definition result_of {Matcher A} (m : M Matcher A) : Result A := snd m.

(** A loop over a finite sequence, threading the loop variables. *)
Fixpoint for_each {Matcher A St} (items : list A) (body : St -> A -> M Matcher St)
  (st : St) : M Matcher St :=
  match items with
  | [] => ret st
  | x :: rest => st' <- body st x ;; for_each rest body st'
  end.

(** ** The driver *)

Section Driver.

Context {Matcher S : Type}.
Context {matcher : MatcherModule Matcher}.
Context {wl_session : Session Matcher S}.
Context {imports : Imports S}.

(** *** Calls on the session and on the output object, recorded *)

Definition output_log (s : string) : M Matcher unit := call (OutputLog s).
Definition output_warn (s : string) : M Matcher unit := call (OutputWarn s).
Definition output_error (s : string) : M Matcher unit := call (OutputError s).

Definition session_open_connection (session : S) (conn_id : ConnId)
  (is_server : option bool) (time : Time) : M Matcher S :=
  call (SessionOpen conn_id is_server time) ;;
  ret (open_connection session conn_id is_server time).

Definition session_message (session : S) (conn_id : ConnId) (msg : Message)
  : M Matcher S :=
  call (SessionMessage conn_id msg) ;;
  ret (message session conn_id msg).

Definition session_close_connection (session : S) (conn_id : ConnId)
  (time : Time) : M Matcher S :=
  call (SessionClose conn_id time) ;;
  ret (close_connection session conn_id time).

Definition session_stopped (session : S) : M Matcher (bool * S) :=
  let r := stopped session in
  call (SessionStopped (fst r)) ;; ret r.

Definition session_quit (session : S) : M Matcher (bool * S) :=
  let r := quit session in
  call (SessionQuit (fst r)) ;; ret r.

Definition session_command (session : S) (cmd : string) : M Matcher S :=
  call (SessionCommand cmd) ;;
  ret (command session cmd).

(** *** [interactive_shell] (lines 18-23)

    [tty] is what is left to read on standard input; [input] takes the next
    line or raises [EOFError] at the end.  The function returns the session
    and the unread input. *)
Definition prompt : string := "wl debug $ ".

Fixpoint interactive_shell (session : S) (tty : File) : M Matcher (S * File) :=
  '(is_stopped, session) <- session_stopped session ;;
  if is_stopped then
    '(should_quit, session) <- session_quit session ;;
    if should_quit then ret (session, tty)
    else
      match tty with
      | [] => call (Input prompt None) ;; raise EOFError
      | cmd :: tty' =>
          call (Input prompt (Some cmd)) ;;
          session <- session_command session cmd ;;
          interactive_shell session tty'
      end
  else ret (session, tty).

(** *** [parse_messages] (lines 25-42) *)

(** Loop variables of the [for] loop: the session, [known_connections]
    and [last_time]. *)
Definition LoopState : Type := (S * Dict * Time)%type.

(** One iteration of the [for] loop (lines 30-37). *)
Definition parse_messages_body (st : LoopState) (item : ConnId * Message)
  : M Matcher LoopState :=
  let '(session, known_connections, _) := st in
  let '(conn_id, msg) := item in
  let last_time := timestamp msg in
  '(session, known_connections) <-
    (if negb (dict_contains known_connections conn_id) then
       let known_connections := dict_set known_connections conn_id true in
       let is_server : option bool := None in
       let is_server :=
         if String.eqb (name msg) "get_registry" then Some (negb (sent msg))
         else is_server in
       session <- session_open_connection session conn_id is_server last_time ;;
       ret (session, known_connections)
     else ret (session, known_connections)) ;;
  session <- session_message session conn_id msg ;;
  ret (session, known_connections, last_time).

(** The second loop (lines 38-39). *)
Definition close_connections (session : S) (conn_ids : list ConnId)
  (last_time : Time) : M Matcher S :=
  for_each conn_ids
    (fun session conn_id => session_close_connection session conn_id last_time)
    session.

Definition parse_messages (session : S) (input_file : File) (allow_shell : bool)
  (tty : File) : M Matcher (S * File) :=
  output_log "Parsing messages" ;;
  let known_connections : Dict := [] in
  let last_time : Time := 0%Z in
  '(session, known_connections, last_time) <-
    for_each (parse_file input_file) parse_messages_body
      (session, known_connections, last_time) ;;
  session <- close_connections session (dict_keys known_connections) last_time ;;
  '(session, tty) <-
    (if allow_shell then interactive_shell session tty
     else ret (session, tty)) ;;
  output_log "Done" ;;
  ret (session, tty).

(** *** [piped_input_main] (lines 44-46): the trace is standard input. *)
Definition piped_input_main (session : S) (env : Environ) : M Matcher S :=
  output_log "Getting input piped from stdin" ;;
  '(session, _) <- parse_messages session (stdin env) false [] ;;
  ret session.

(** *** [file_input_main] (lines 48-55) *)
Definition builtin_open (env : Environ) (file_path : string) : M Matcher File :=
  let r := fs_open env file_path in
  call (Open file_path r) ;;
  match r with
  | Opened input_file => ret input_file
  | NoSuchFile => raise FileNotFoundError
  | OtherOSError => raise OSError
  end.

Definition is_FileNotFoundError (e : Exn) : bool :=
  match e with FileNotFoundError => true | _ => false end.

Definition file_input_main (session : S) (file_path : string) (env : Environ)
  : M Matcher S :=
  output_log ("Opening " ++ file_path) ;;
  try_except
    (input_file <- builtin_open env file_path ;;
     '(session, _) <- parse_messages session input_file true (stdin env) ;;
     call FileClose ;;
     ret session)
    is_FileNotFoundError
    (output_error (file_path ++ " not found") ;;
     ret session).

(** *** [main] from line 73 on: what [main] does with the namespace
    [parser.parse_args()] has returned *)

(** [str(n)] for a natural number. *)
Definition str_of_nat (n : nat) : string := NilZero.string_of_uint (Nat.to_uint n).

(** Lines 99-102: every character of the text wrapped by [util.color], the
    colour code cycling with the character's index. *)
Definition enumerate (text : string) : list (nat * ascii) :=
  let chars := list_ascii_of_string text in
  combine (seq 0 (List.length chars)) chars.

Definition rainbow (text : string) : string :=
  fold_left
    (fun s ic =>
       (s ++ color ("1;" ++ str_of_nat (fst ic mod 6 + 31)) (String (snd ic) ""))%string)
    (enumerate text) "".

(** Lines 73-110: the assertion, the output object, the option echo and
    [--matcher-help]. *)
Definition main_options (args : Args) (env : Environ) : M Matcher unit :=
  (if gdb args
   then raise (AssertionError
          "GDB argument should have been intercepted by gdb.runner.parse_args()")
   else ret tt) ;;
  '(out_stream, err_stream) <-
    (if check_gdb env then call GdbOutputStreams ;; ret (GdbOut, GdbErr)
     else ret (StdStdout, StdStderr)) ;;
  (if no_color args then call (SetColorOutput false)
   else if color_flag args then call (SetColorOutput true)
   else ret tt) ;;
  let verbose := verbose args in
  let unprocessed_output := negb (supress args) in
  call (OutputNew verbose unprocessed_output out_stream err_stream) ;;
  when verbose
    (call (SetVerbose true) ;; output_log "Verbose output enabled") ;;
  (if no_color args then
     when (color_flag args)
       (output_warn "Ignoring --color, since --no-color was also specified") ;;
     output_log "Color output disabled"
   else if color_flag args then output_log (rainbow "Color output enabled")
   else ret tt) ;;
  when unprocessed_output (output_log "Showing unparsable output") ;;
  when (matcher_help args) (call MatcherPrintHelp ;; raise (SystemExit 1)).

(** Lines 112-118. *)
Definition main_filter_matcher (args : Args) : M Matcher Matcher :=
  let filter_matcher := always in
  match truthy (f args) with
  | Some query =>
      match parse query with
      | inr parsed =>
          let filter_matcher := simplify parsed in
          output_log ("Filter matcher: " ++ str filter_matcher) ;;
          ret filter_matcher
      | inl e =>
          output_error e ;;
          ret filter_matcher
      end
  | None => ret filter_matcher
  end.

(** Lines 120-126. *)
Definition main_stop_matcher (args : Args) : M Matcher Matcher :=
  let stop_matcher := never in
  match truthy (b args) with
  | Some query =>
      match parse query with
      | inr parsed =>
          let stop_matcher := simplify parsed in
          output_log ("Break matcher: " ++ str stop_matcher) ;;
          ret stop_matcher
      | inl e =>
          output_error e ;;
          ret stop_matcher
      end
  | None => ret stop_matcher
  end.

(** Line 130. *)
Definition session_new (filter_matcher stop_matcher : Matcher) : M Matcher S :=
  call (SessionNew filter_matcher stop_matcher) ;;
  ret (Session_init filter_matcher stop_matcher).

(** Lines 132-147: where the messages come from. *)
Definition main_input (args : Args) (env : Environ) (session : S)
  : M Matcher unit :=
  let file_path := path args in
  if check_gdb env then
    try_except
      (match truthy file_path with
       | Some _ => output_warn "Ignoring load file because we're inside GDB"
       | None => ret tt
       end ;;
       call GdbPluginMain ;;
       match gdb_plugin_main session with
       | inr _ => ret tt
       | inl e => raise e
       end)
      (fun _ => true)
      (call TracebackPrintExc)
  else
    match truthy file_path with
    | Some file_path =>
        file_input_main session file_path env ;; ret tt
    | None =>
        match truthy (b args) with
        | Some _ =>
            output_warn "Ignoring stop matcher when stdin is used for messages"
        | None => ret tt
        end ;;
        piped_input_main session env ;; ret tt
    end.

Definition main (args : Args) (env : Environ) : M Matcher unit :=
  main_options args env ;;
  filter_matcher <- main_filter_matcher args ;;
  stop_matcher <- main_stop_matcher args ;;
  call ProtocolLoadAll ;;
  session <- session_new filter_matcher stop_matcher ;;
  main_input args env session.

End Driver.

(** ** Reading the list of calls *)

Section Calls.

Context {Matcher : Type}.

(** The records handed to [Session.message], in call order. *)
Definition delivered (calls : list (Call Matcher)) : list (ConnId * Message) :=
  flat_map (fun c => match c with
                     | SessionMessage conn_id msg => [(conn_id, msg)]
                     | _ => []
                     end) calls.

(** The [open_connection] calls: id, server hint and time. *)
Definition opened (calls : list (Call Matcher))
  : list (ConnId * option bool * Time) :=
  flat_map (fun c => match c with
                     | SessionOpen conn_id is_server time =>
                         [(conn_id, is_server, time)]
                     | _ => []
                     end) calls.

(** The [close_connection] calls: id and time. *)
Definition closed (calls : list (Call Matcher)) : list (ConnId * Time) :=
  flat_map (fun c => match c with
                     | SessionClose conn_id time => [(conn_id, time)]
                     | _ => []
                     end) calls.

(** The sessions constructed: filter matcher and stop matcher. *)
Definition constructed (calls : list (Call Matcher)) : list (Matcher * Matcher) :=
  flat_map (fun c => match c with
                     | SessionNew filter_matcher stop_matcher =>
                         [(filter_matcher, stop_matcher)]
                     | _ => []
                     end) calls.

(** The state queries [stopped()] and [quit()]. *)
Definition is_query (c : Call Matcher) : bool :=
  match c with
  | SessionStopped _ | SessionQuit _ => true
  | _ => false
  end.

Definition queries (calls : list (Call Matcher)) : list (Call Matcher) :=
  filter is_query calls.

(** The commands passed to [Session.command]. *)
Definition commands (calls : list (Call Matcher)) : list string :=
  flat_map (fun c => match c with
                     | SessionCommand cmd => [cmd]
                     | _ => []
                     end) calls.

End Calls.

(** ** Roles *)

Inductive Role : Type := Server | Client | Unknown.

(** The role a connection is opened in, from [open_connection]'s
    [is_server] argument. *)
Definition role_of_hint (is_server : option bool) : Role :=
  match is_server with
  | Some true => Server
  | Some false => Client
  | None => Unknown
  end.

(** The role the driver gave connection [conn_id]: that of its first
    [open_connection] call, if there is one. *)
Definition driver_role (opens : list (ConnId * option bool * Time))
  (conn_id : ConnId) : option Role :=
  match find (fun o => Z.eqb (fst (fst o)) conn_id) opens with
  | Some o => Some (role_of_hint (snd (fst o)))
  | None => None
  end.

(** The hint line 33-35 computes from the message that opens a connection. *)
Definition opening_hint (msg : Message) : option bool :=
  if String.eqb (name msg) "get_registry" then Some (negb (sent msg)) else None.



(** The connection ids of a trace in order of first appearance, given the
    ids seen before. *)
Fixpoint new_connections (seen : list ConnId) (trace : list (ConnId * Message))
  : list (ConnId * Message) :=
  match trace with
  | [] => []
  | (conn_id, msg) :: rest =>
      if existsb (Z.eqb conn_id) seen then new_connections seen rest
      else (conn_id, msg) :: new_connections (seen ++ [conn_id]) rest
  end.

(** The timestamp of the last record of a trace ([last_time] after the
    loop; 0 for the empty trace). *)
Definition last_timestamp (trace : list (ConnId * Message)) : Time :=
  last (map (fun item => timestamp (snd item)) trace) 0%Z.

(** ** A session to run the driver against *)

Inductive Phase : Type := Running | Stopped | Quit.

Record Connection : Type := {
  conn : ConnId;
  role : Role;
  opened_at : Time;
  closed_at : option Time
}.

(** Modelled from the spec: the session state machine of section 4.3, whose
    implementation (session.py) is not among the sources.  It keeps what the
    driver can tell apart: the phase, the connections with their role and
    life time, and the records accepted.  Matcher evaluation is a function
    the session is built with. *)
Record SpecSession (Matcher : Type) : Type := {
  phase : Phase;
  connections : list Connection;
  filter_of : Matcher;
  stop_of : Matcher;
  tracked : list (ConnId * Message)
}.
Arguments phase {Matcher}.
Arguments connections {Matcher}.
Arguments filter_of {Matcher}.
Arguments stop_of {Matcher}.
Arguments tracked {Matcher}.

Section SpecSessionOps.

Context {Matcher : Type}.
Variable evaluate : Matcher -> Message -> bool.

Definition is_open (c : Connection) : bool :=
  match closed_at c with None => true | Some _ => false end.

Definition spec_init (filter_matcher stop_matcher : Matcher)
  : SpecSession Matcher :=
  {| phase := Running; connections := []; filter_of := filter_matcher;
     stop_of := stop_matcher; tracked := [] |}.

(** Re-opening an id is a usage fault and changes nothing. *)
Definition spec_open_connection (s : SpecSession Matcher) (conn_id : ConnId)
  (is_server : option bool) (time : Time) : SpecSession Matcher :=
  if existsb (fun c => Z.eqb (conn c) conn_id) (connections s) then s
  else {| phase := phase s;
          connections := connections s ++
            [{| conn := conn_id; role := role_of_hint is_server;
                opened_at := time; closed_at := None |}];
          filter_of := filter_of s; stop_of := stop_of s;
          tracked := tracked s |}.

(** Modelled from the spec: section 3 has the role inferred from the first
    message whose name is the bootstrap call ([session.py] is not among the
    sources); a connection whose role is still [Unknown] takes it
    from a [get_registry] record, client if the record was sent and server
    if it was received. *)
Definition infer (msg : Message) (r : Role) : Role :=
  match r with
  | Unknown =>
      if String.eqb (name msg) "get_registry"
      then (if sent msg then Client else Server)
      else Unknown
  | _ => r
  end.

(** Modelled from the spec: [message] of section 4.3 ([session.py] is not
    among the sources).  A record for a connection that is not open is
    dropped; otherwise it is tracked, the connection's role is inferred from
    it if still unknown,
    and a stop matcher match takes [Running] to [Stopped]. *)
Definition spec_message (s : SpecSession Matcher) (conn_id : ConnId)
  (msg : Message) : SpecSession Matcher :=
  if existsb (fun c => Z.eqb (conn c) conn_id && is_open c) (connections s)
  then {| phase := match phase s with
                   | Running => if evaluate (stop_of s) msg then Stopped else Running
                   | p => p
                   end;
          connections :=
            map (fun c => if Z.eqb (conn c) conn_id && is_open c
                          then {| conn := conn c; role := infer msg (role c);
                                  opened_at := opened_at c;
                                  closed_at := closed_at c |}
                          else c) (connections s);
          filter_of := filter_of s; stop_of := stop_of s;
          tracked := tracked s ++ [(conn_id, msg)] |}
  else s.

Definition spec_close_connection (s : SpecSession Matcher) (conn_id : ConnId)
  (time : Time) : SpecSession Matcher :=
  {| phase := phase s;
     connections :=
       map (fun c => if Z.eqb (conn c) conn_id && is_open c
                     then {| conn := conn c; role := role c;
                             opened_at := opened_at c; closed_at := Some time |}
                     else c) (connections s);
     filter_of := filter_of s; stop_of := stop_of s; tracked := tracked s |}.

Definition spec_stopped (s : SpecSession Matcher) : bool * SpecSession Matcher :=
  (match phase s with Stopped => true | _ => false end, s).

Definition spec_quit (s : SpecSession Matcher) : bool * SpecSession Matcher :=
  (match phase s with Quit => true | _ => false end, s).

(** Commands are accepted only while [Stopped]: [continue], [quit], and
    anything else is a query that changes nothing. *)
Definition spec_command (s : SpecSession Matcher) (text : string)
  : SpecSession Matcher :=
  match phase s with
  | Stopped =>
      {| phase := if String.eqb text "continue" then Running
                  else if String.eqb text "quit" then Quit
                  else Stopped;
         connections := connections s;
         filter_of := filter_of s; stop_of := stop_of s; tracked := tracked s |}
  | _ => s
  end.

Definition spec_session : Session Matcher (SpecSession Matcher) :=
  {| Session_init := spec_init;
     open_connection := spec_open_connection;
     message := spec_message;
     close_connection := spec_close_connection;
     stopped := spec_stopped;
     quit := spec_quit;
     command := spec_command |}.

End SpecSessionOps.

(** The role the session holds for a connection. *)
Definition session_role {Matcher} (s : SpecSession Matcher) (conn_id : ConnId)
  : option Role :=
  option_map role (find (fun c => Z.eqb (conn c) conn_id) (connections s)).

(** ** Small collaborators for concrete runs *)

(** A matcher module with the two constants and message-name atoms; a query
    that opens a parenthesis is rejected. *)
Inductive Query : Type :=
| QAlways
| QNever
| QName (message_name : string).

Fixpoint has_paren (s : string) : bool :=
  match s with
  | EmptyString => false
  | String c rest => Ascii.eqb c "("%char || has_paren rest
  end.

Definition query_module : MatcherModule Query :=
  {| always := QAlways;
     never := QNever;
     parse := fun s => if has_paren s then inl ("Unbalanced query: " ++ s)%string
                       else inr (QName s);
     simplify := fun q => q;
     str := fun q => match q with
                     | QAlways => "always"
                     | QNever => "never"
                     | QName n => n
                     end |}.

Definition query_evaluate (q : Query) (msg : Message) : bool :=
  match q with
  | QAlways => true
  | QNever => false
  | QName n => String.eqb n (name msg)
  end.

Definition query_session : Session Query (SpecSession Query) :=
  spec_session query_evaluate.

(** A decoder that yields a given trace whatever the file holds, no
    colouring, and a gdb plugin that returns at once. *)
Definition fixed_imports {S : Type} (trace : list (ConnId * Message)) : Imports S :=
  {| parse_file := fun _ => trace;
     color := fun _ text => text;
     gdb_plugin_main := fun session => inr session |}.

(** The scenario record [(t=0, sent, obj=1, "get_registry", [])]. *)
Definition get_registry_sent : Message :=
  {| timestamp := 0%Z; sent := true; obj_id := 1%Z; name := "get_registry";
     msg_args := [] |}.

Definition sync_sent (t : Time) : Message :=
  {| timestamp := t; sent := true; obj_id := 1%Z; name := "sync";
     msg_args := [] |}.

Definition get_registry_at (t : Time) : Message :=
  {| timestamp := t; sent := true; obj_id := 1%Z; name := "get_registry";
     msg_args := [] |}.

Definition no_files : string -> OpenResult := fun _ => NoSuchFile.

Definition plain_env : Environ :=
  {| check_gdb := false; fs_open := no_files; stdin := [] |}.

Definition plain_args : Args :=
  {| matcher_help := false; verbose := false; path := None; supress := false;
     color_flag := false; no_color := false; f := None; b := None;
     gdb := false |}.

(** ** The calls of [parse_messages], written out *)

Section Shapes.

Context {Matcher : Type}.

(** What the [for] loop calls on a trace, given the connection ids already
    in [known_connections]. *)
Fixpoint loop_calls (seen : list ConnId) (trace : list (ConnId * Message))
  : list (Call Matcher) :=
  match trace with
  | [] => []
  | (conn_id, msg) :: rest =>
      if existsb (Z.eqb conn_id) seen
      then SessionMessage conn_id msg :: loop_calls seen rest
      else SessionOpen conn_id (opening_hint msg) (timestamp msg)
             :: SessionMessage conn_id msg
             :: loop_calls (seen ++ [conn_id]) rest
  end.

Definition close_calls (conn_ids : list ConnId) (time : Time)
  : list (Call Matcher) :=
  map (fun conn_id => SessionClose conn_id time) conn_ids.

(** The runs of [interactive_shell]: the calls made, and whether the shell
    returned ([true]) or ran out of input ([false]). *)
Inductive shell_calls : list (Call Matcher) -> bool -> Prop :=
| shell_not_stopped :
    shell_calls [SessionStopped false] true
| shell_quit :
    shell_calls [SessionStopped true; SessionQuit true] true
| shell_eof :
    shell_calls [SessionStopped true; SessionQuit false; Input prompt None] false
| shell_command cmd rest returned :
    shell_calls rest returned ->
    shell_calls (SessionStopped true :: SessionQuit false
                   :: Input prompt (Some cmd) :: SessionCommand cmd :: rest)
                returned.

(** What [parse_messages] calls after the connections are closed. *)
Definition tail_calls (allow_shell : bool) (tail : list (Call Matcher)) : Prop :=
  if allow_shell
  then exists shell returned,
         shell_calls shell returned /\
         tail = shell ++ (if returned then [OutputLog "Done"] else [])
  else tail = [OutputLog "Done"].

(** Calls that only the shell and the closing log line make. *)
Definition is_shell_call (c : Call Matcher) : bool :=
  match c with
  | SessionStopped _ | SessionQuit _ | Input _ _ | SessionCommand _
  | OutputLog _ => true
  | _ => false
  end.

(** Calls of the two loops of [parse_messages]. *)
Definition is_loop_call (c : Call Matcher) : bool :=
  match c with
  | SessionOpen _ _ _ | SessionMessage _ _ | SessionClose _ _ | OutputLog _ => true
  | _ => false
  end.

(** ** The claim about the quit check, as worded *)

(** Between two deliveries the driver asks the session whether to quit. *)
Definition quit_checked_between_records (calls : list (Call Matcher)) : Prop :=
  forall pre conn_id1 msg1 mid conn_id2 msg2 post,
    calls = pre ++ SessionMessage conn_id1 msg1 :: mid
                ++ SessionMessage conn_id2 msg2 :: post ->
    exists answer, In (SessionQuit answer) mid.

End Shapes.

(** The ids of the connections opened, and of those closed, in call order. *)
Definition opened_ids {Matcher} (calls : list (Call Matcher)) : list ConnId :=
  map (fun o => fst (fst o)) (opened calls).

Definition closed_ids {Matcher} (calls : list (Call Matcher)) : list ConnId :=
  map fst (closed calls).

(** ** Concrete runs *)

(** The driver run against the modelled session, with a decoder that yields
    [trace]. *)
Definition run_parse_messages (trace : list (ConnId * Message))
  (session : SpecSession Query) (allow_shell : bool) (tty : File)
  : M Query (SpecSession Query * File) :=
  @parse_messages Query (SpecSession Query) query_session (fixed_imports trace)
    session [] allow_shell tty.

Definition run_interactive_shell (session : SpecSession Query) (tty : File)
  : M Query (SpecSession Query * File) :=
  @interactive_shell Query (SpecSession Query) query_session session tty.

Definition run_main (trace : list (ConnId * Message)) (args : Args)
  (env : Environ) : M Query unit :=
  @main Query (SpecSession Query) query_module query_session
    (fixed_imports trace) args env.

Definition fresh_session : SpecSession Query := spec_init QAlways QNever.

(** A session that answers [stopped()] and [quit()] from a script, one
    answer per query and [false] once the script is used up; its other
    methods do nothing.  It drives the shell down any of its paths. *)
Definition next_answer (script : list bool) : bool * list bool :=
  match script with
  | [] => (false, [])
  | answer :: rest => (answer, rest)
  end.

Definition scripted_session : Session Query (list bool) :=
  {| Session_init := fun _ _ => [];
     open_connection := fun script _ _ _ => script;
     message := fun script _ _ => script;
     close_connection := fun script _ _ => script;
     stopped := next_answer;
     quit := next_answer;
     command := fun script _ => script |}.

(** A session that stops at every [sync] message. *)
Definition stop_at_sync : SpecSession Query := spec_init QAlways (QName "sync").

(** A session that is already stopped. *)
Definition stopped_session : SpecSession Query :=
  {| phase := Stopped; connections := []; filter_of := QAlways;
     stop_of := QNever; tracked := [] |}.

(** The scenario trace: one [get_registry] sent on connection 1 at time 0. *)
Definition scenario_trace : list (ConnId * Message) := [(1%Z, get_registry_sent)].

(** Connection 1 starts with a [sync] and sends [get_registry] afterwards. *)
Definition late_registry_trace : list (ConnId * Message) :=
  [(1%Z, sync_sent 0%Z); (1%Z, get_registry_at 1%Z)].

(** Two connections, interleaved. *)
Definition two_connection_trace : list (ConnId * Message) :=
  [(1%Z, get_registry_at 3%Z); (2%Z, sync_sent 4%Z); (1%Z, sync_sent 7%Z)].

(** Command lines. *)
Definition rejected_queries_args : Args :=
  {| matcher_help := false; verbose := false; path := None; supress := false;
     color_flag := false; no_color := false;
     f := Some "(wl_surface"; b := Some "(wl_pointer";
     gdb := false |}.

Definition break_on_stdin_args : Args :=
  {| matcher_help := false; verbose := false; path := None; supress := false;
     color_flag := false; no_color := false;
     f := None; b := Some "destroy";
     gdb := false |}.

Definition load_missing_args : Args :=
  {| matcher_help := false; verbose := false; path := Some "trace.log";
     supress := false; color_flag := false; no_color := false;
     f := None; b := None; gdb := false |}.

(** A computation that constructs no session. *)
Definition constructs_nothing {Matcher A} (m : M Matcher A) : Prop :=
  constructed (calls_of m) = [].

(** ** More ways to read the list of calls *)

(** A list without its repetitions, every element at its first place. *)
Fixpoint dedup (l : list ConnId) : list ConnId :=
  match l with
  | [] => []
  | x :: rest => x :: remove Z.eq_dec x (dedup rest)
  end.

(** Calls that write through the output object. *)
Definition is_output_use {Matcher} (c : Call Matcher) : bool :=
  match c with
  | OutputLog _ | OutputWarn _ | OutputError _ => true
  | _ => false
  end.

(** Calls [main] makes before it handles the queries. *)
Definition is_option_call {Matcher} (c : Call Matcher) : bool :=
  match c with
  | GdbOutputStreams | SetColorOutput _ | OutputNew _ _ _ _ | SetVerbose _
  | OutputLog _ | OutputWarn _ => true
  | _ => false
  end.

(** Calls that belong to reading and driving the input: everything but the
    set-up calls (option setting, the two constructors, the help text and
    the protocol load). *)
Definition is_input_call {Matcher} (c : Call Matcher) : bool :=
  match c with
  | OutputNew _ _ _ _ | SessionNew _ _ | SetColorOutput _ | SetVerbose _
  | MatcherPrintHelp | ProtocolLoadAll | GdbOutputStreams => false
  | _ => true
  end.

(** The values [set_color_output] was called with, in call order. *)
Definition color_settings {Matcher} (calls : list (Call Matcher)) : list bool :=
  flat_map (fun c => match c with
                     | SetColorOutput val => [val]
                     | _ => []
                     end) calls.

(** The lines [input] handed back. *)
Definition lines_read {Matcher} (calls : list (Call Matcher)) : list string :=
  flat_map (fun c => match c with
                     | Input _ (Some line) => [line]
                     | _ => []
                     end) calls.

(** The calls of [parse_messages] before the shell. *)
Definition front_calls {Matcher} (trace : list (ConnId * Message))
  : list (Call Matcher) :=
  OutputLog "Parsing messages"
    :: loop_calls [] trace
    ++ close_calls (map fst (new_connections [] trace)) (last_timestamp trace).

(** The command line with one option replaced. *)
Definition with_f (query : option string) (args : Args) : Args :=
  {| matcher_help := matcher_help args; verbose := verbose args;
     path := path args; supress := supress args;
     color_flag := color_flag args; no_color := no_color args;
     f := query; b := b args; gdb := gdb args |}.

Definition with_b (query : option string) (args : Args) : Args :=
  {| matcher_help := matcher_help args; verbose := verbose args;
     path := path args; supress := supress args;
     color_flag := color_flag args; no_color := no_color args;
     f := f args; b := query; gdb := gdb args |}.

Definition with_path (file_path : option string) (args : Args) : Args :=
  {| matcher_help := matcher_help args; verbose := verbose args;
     path := file_path; supress := supress args;
     color_flag := color_flag args; no_color := no_color args;
     f := f args; b := b args; gdb := gdb args |}.

(** Every call of a computation passes a test. *)
Definition calls_all {Matcher A} (test : Call Matcher -> bool) (m : M Matcher A)
  : Prop :=
  Forall (fun c => test c = true) (calls_of m).

(** Calls of the loops of [parse_messages] or of the shell. *)
Definition is_trace_call {Matcher} (c : Call Matcher) : bool :=
  is_loop_call c || is_shell_call c.

(** What lines 73-110 of [main] call, option by option. *)
Definition option_calls {Matcher S} {imports : Imports S} (args : Args)
  (env : Environ) : list (Call Matcher) :=
  (if check_gdb env then [GdbOutputStreams] else [])
  ++ (if no_color args then [SetColorOutput false]
      else if color_flag args then [SetColorOutput true] else [])
  ++ [OutputNew (verbose args) (negb (supress args))
        (if check_gdb env then GdbOut else StdStdout)
        (if check_gdb env then GdbErr else StdStderr)]
  ++ (if verbose args
      then [SetVerbose true; OutputLog "Verbose output enabled"] else [])
  ++ (if no_color args
      then (if color_flag args
            then [OutputWarn "Ignoring --color, since --no-color was also specified"]
            else [])
           ++ [OutputLog "Color output disabled"]
      else if color_flag args
           then [OutputLog (rainbow "Color output enabled")] else [])
  ++ (if negb (supress args) then [OutputLog "Showing unparsable output"] else [])
  ++ (if matcher_help args then [MatcherPrintHelp] else []).

(** ** The script entry (lines 149-164) *)

(** The process the script runs in: the environment [main] sees, whether
    [sys.stdout] has an [isatty] that answers true, and [sys.argv]. *)
Record Process : Type := {
  environ : Environ;
  stdout_isatty : bool;
  argv : list string
}.

(** [gdb.runner]: [parse_args] hands back the arguments for a run inside gdb
    ([Some]) or a false value ([None]); [main] performs that run and may
    raise. *)
Class GdbRunner (R : Type) : Type := {
  runner_parse_args : list string -> option R;
  runner_main : R -> option Exn
}.

(** The calls of the script: those [main] can make too, and the two on the
    runner. *)
Inductive ScriptCall (Matcher R : Type) : Type :=
| DriverCall (c : Call Matcher)
| RunnerParseArgs (argv : list string) (r : option R)
| RunnerMain (gdb_runner_args : R).
Arguments DriverCall {Matcher R}.
Arguments RunnerParseArgs {Matcher R}.
Arguments RunnerMain {Matcher R}.

(** The block under [if __name__ == '__main__':].  [args] is what [main]'s
    argument parser makes of the command line. *)
Definition script {Matcher S R : Type} {matcher : MatcherModule Matcher}
  {wl_session : Session Matcher S} {imports : Imports S} {runner : GdbRunner R}
  (proc : Process) (args : Args) : list (ScriptCall Matcher R) * Result unit :=
  let color_calls :=
    if check_gdb (environ proc) || stdout_isatty proc
    then [DriverCall (SetColorOutput true)] else [] in
  let gdb_runner_args : option R := None in
  let '(runner_calls, gdb_runner_args) :=
    if negb (check_gdb (environ proc))
    then let r := runner_parse_args (argv proc) in
         ([RunnerParseArgs (argv proc) r], r)
    else ([], gdb_runner_args) in
  match gdb_runner_args with
  | Some runner_args =>
      (color_calls ++ runner_calls ++ [RunnerMain runner_args],
       match runner_main runner_args with
       | Some e => Raise e
       | None => Ok tt
       end)
  | None =>
      let '(calls, r) := main args (environ proc) in
      (color_calls ++ runner_calls ++ map DriverCall calls, r)
  end.

(** The values [set_color_output] was called with over the whole script. *)
Definition script_color_settings {Matcher R} (calls : list (ScriptCall Matcher R))
  : list bool :=
  flat_map (fun c => match c with
                     | DriverCall (SetColorOutput val) => [val]
                     | _ => []
                     end) calls.

(** A runner that takes over when [-g] is on the command line. *)
Definition flag_runner : GdbRunner (list string) :=
  {| runner_parse_args :=
       fun argv => if existsb (String.eqb "-g") argv then Some argv else None;
     runner_main := fun _ => None |}.

Definition terminal_process : Process :=
  {| environ := plain_env; stdout_isatty := true;
     argv := ["wayland-debug"; "-C"] |}.

Definition no_color_args : Args :=
  {| matcher_help := false; verbose := false; path := None; supress := false;
     color_flag := true; no_color := true; f := None; b := None;
     gdb := false |}.

(** More environments and command lines for concrete runs. *)
Definition file_env : Environ :=
  {| check_gdb := false;
     fs_open := fun file_path =>
       if String.eqb file_path "trace.log"
       then Opened ["[1.0]  -> wl_display@1.get_registry(new id wl_registry@2)"]
       else if String.eqb file_path "locked.log" then OtherOSError
       else NoSuchFile;
     stdin := ["quit"] |}.

Definition gdb_env : Environ :=
  {| check_gdb := true; fs_open := no_files; stdin := [] |}.

Definition gdb_flag_args : Args :=
  {| matcher_help := false; verbose := false; path := None; supress := false;
     color_flag := false; no_color := false; f := None; b := None;
     gdb := true |}.

Definition matcher_help_args : Args :=
  {| matcher_help := true; verbose := true; path := None; supress := true;
     color_flag := false; no_color := false; f := Some "(wl_surface"; b := None;
     gdb := false |}.

Definition parsed_queries_args : Args :=
  {| matcher_help := false; verbose := false; path := None; supress := true;
     color_flag := false; no_color := false;
     f := Some "wl_surface"; b := Some "destroy";
     gdb := false |}.

(** ** The session the loops of [parse_messages] leave behind *)






(** ** Line 71: the command line parser *)

(** [parser.parse_args()]: it returns the namespace ([inr]) or ends the
    program with an exit status ([inl]), 0 after printing the help for [-h]
    and 2 after reporting a malformed command line. *)
Class ArgParser : Type := {
  parser_parse_args : list string -> Z + Args
}.

(** [main] as a whole (lines 57-147): the command line is parsed, and what
    follows is [main] above on the namespace. *)
Definition main_from_command_line {Matcher S : Type}
  {matcher : MatcherModule Matcher} {wl_session : Session Matcher S}
  {imports : Imports S} {parser : ArgParser}
  (command_line : list string) (env : Environ) : M Matcher unit :=
  match parser_parse_args command_line with
  | inl status => raise (SystemExit status)
  | inr args => main args env
  end.

(** A parser for concrete runs: [-h] exits with status 0, [--bogus] with
    status 2, [--matcher-help] and [-C] are flags, anything else is
    ignored. *)
Definition flag_parser : ArgParser :=
  {| parser_parse_args := fun command_line =>
       if existsb (String.eqb "-h") command_line then inl 0%Z
       else if existsb (String.eqb "--bogus") command_line then inl 2%Z
       else inr {| matcher_help := existsb (String.eqb "--matcher-help") command_line;
                   verbose := false; path := None; supress := false;
                   color_flag := false;
                   no_color := existsb (String.eqb "-C") command_line;
                   f := None; b := None; gdb := false |} |}.

(** * Proofs *)

(** ** Lists *)

Lemma last_cons_default {A} (l : list A) (x d : A) :
  last (x :: l) d = last l x.
Proof.
  revert x d. induction l as [|y l IH]; intros x d.
  - reflexivity.
  - change (last (x :: y :: l) d) with (last (y :: l) d).
    rewrite (IH y d), (IH y x). reflexivity.
Qed.

Lemma split_in_app {A} (l1 l2 pre post : list A) (x : A) :
  l1 ++ l2 = pre ++ x :: post ->
  (exists mid, l1 = pre ++ x :: mid /\ post = mid ++ l2) \/
  (exists mid, pre = l1 ++ mid /\ l2 = mid ++ x :: post).
Proof.
  revert pre. induction l1 as [|a l1 IH]; intros pre H.
  - right. exists pre. split; [reflexivity | exact H].
  - destruct pre as [|p pre]; simpl in H.
    + injection H as -> <-. left. exists l1. split; reflexivity.
    + injection H as -> H. destruct (IH pre H) as [(mid & -> & ->) | (mid & -> & ->)].
      * left. exists mid. split; reflexivity.
      * right. exists mid. split; reflexivity.
Qed.

Lemma split_after {A} (l1 l2 pre post : list A) (x : A) :
  ~ In x l1 ->
  l1 ++ l2 = pre ++ x :: post ->
  exists mid, pre = l1 ++ mid /\ l2 = mid ++ x :: post.
Proof.
  intros Hn H. destruct (split_in_app _ _ _ _ _ H) as [(mid & -> & _) | Hr].
  - exfalso. apply Hn. apply in_or_app. right. left. reflexivity.
  - exact Hr.
Qed.

Lemma split_before {A} (l1 l2 pre post : list A) (x : A) :
  ~ In x l2 ->
  l1 ++ l2 = pre ++ x :: post ->
  exists mid, l1 = pre ++ x :: mid /\ post = mid ++ l2.
Proof.
  intros Hn H. destruct (split_in_app _ _ _ _ _ H) as [Hl | (mid & _ & ->)].
  - exact Hl.
  - exfalso. apply Hn. apply in_or_app. right. left. reflexivity.
Qed.

Lemma existsb_eqb_In (k : ConnId) (l : list ConnId) :
  existsb (Z.eqb k) l = true <-> In k l.
Proof.
  rewrite existsb_exists. split.
  - intros (x & Hin & Heq). apply Z.eqb_eq in Heq. subst. exact Hin.
  - intros Hin. exists k. split; [exact Hin | apply Z.eqb_refl].
Qed.

Lemma existsb_eqb_not_In (k : ConnId) (l : list ConnId) :
  existsb (Z.eqb k) l = false <-> ~ In k l.
Proof.
  rewrite <- existsb_eqb_In. destruct (existsb (Z.eqb k) l); split; intro H;
    try reflexivity; try discriminate; try (intros H'; discriminate).
  exfalso. apply H. reflexivity.
Qed.

(** ** The dictionary *)

Lemma dict_contains_keys (d : Dict) (k : ConnId) :
  dict_contains d k = existsb (Z.eqb k) (dict_keys d).
Proof.
  unfold dict_contains, dict_keys. induction d as [|[k' v] d IH]; simpl.
  - reflexivity.
  - rewrite IH, (Z.eqb_sym k' k). reflexivity.
Qed.

Lemma dict_set_new_key (d : Dict) (k : ConnId) (v : bool) :
  existsb (Z.eqb k) (dict_keys d) = false ->
  dict_keys (dict_set d k v) = dict_keys d ++ [k].
Proof.
  unfold dict_keys. induction d as [|[k' v'] d IH]; simpl; intros H.
  - reflexivity.
  - apply orb_false_elim in H. destruct H as [Hk Hd].
    rewrite (Z.eqb_sym k' k), Hk. simpl. rewrite (IH Hd). reflexivity.
Qed.

(** ** What the extraction functions see in each part of the call list *)

Section CallFacts.

Context {Matcher : Type}.
Implicit Types calls tail : list (Call Matcher).

Lemma delivered_app calls1 calls2 :
  delivered (calls1 ++ calls2) = delivered calls1 ++ delivered calls2.
Proof. apply flat_map_app. Qed.

Lemma opened_app calls1 calls2 :
  opened (calls1 ++ calls2) = opened calls1 ++ opened calls2.
Proof. apply flat_map_app. Qed.

Lemma closed_app calls1 calls2 :
  closed (calls1 ++ calls2) = closed calls1 ++ closed calls2.
Proof. apply flat_map_app. Qed.

Lemma constructed_app calls1 calls2 :
  constructed (calls1 ++ calls2) = constructed calls1 ++ constructed calls2.
Proof. apply flat_map_app. Qed.

Lemma In_delivered calls conn_id msg :
  In (SessionMessage conn_id msg) calls -> In (conn_id, msg) (delivered calls).
Proof.
  intros H. apply in_flat_map. exists (SessionMessage conn_id msg).
  split; [exact H | left; reflexivity].
Qed.

Lemma In_closed calls conn_id time :
  In (SessionClose conn_id time) calls <-> In (conn_id, time) (closed calls).
Proof.
  split.
  - intros H. apply in_flat_map. exists (SessionClose conn_id time).
    split; [exact H | left; reflexivity].
  - intros H. apply in_flat_map in H. destruct H as (c & Hin & Hc).
    destruct c; simpl in Hc; try contradiction.
    destruct Hc as [Hc | []]. injection Hc as -> ->. exact Hin.
Qed.

Lemma not_delivered_not_In calls conn_id msg :
  delivered calls = [] -> ~ In (SessionMessage conn_id msg) calls.
Proof.
  intros H Hin. apply In_delivered in Hin. rewrite H in Hin. exact Hin.
Qed.

Lemma not_closed_not_In calls conn_id time :
  closed calls = [] -> ~ In (SessionClose conn_id time) calls.
Proof.
  intros H Hin. apply In_closed in Hin. rewrite H in Hin. exact Hin.
Qed.

(** Shell calls carry no delivery, no open, no close, no construction. *)
Lemma shell_call_extracts calls :
  Forall (fun c => is_shell_call c = true) calls ->
  delivered calls = [] /\ opened calls = [] /\ closed calls = [] /\
  constructed calls = [].
Proof.
  induction 1 as [|c calls Hc _ (IH1 & IH2 & IH3 & IH4)].
  - repeat split.
  - destruct c; try discriminate Hc; simpl; auto.
Qed.

(** Loop calls carry no query, no command and no construction. *)
Lemma loop_call_extracts calls :
  Forall (fun c => is_loop_call c = true) calls ->
  queries calls = [] /\ commands calls = [] /\ constructed calls = [].
Proof.
  induction 1 as [|c calls Hc _ (IH1 & IH2 & IH3)].
  - repeat split.
  - destruct c; try discriminate Hc; simpl; auto.
Qed.

Lemma loop_calls_are_loop_calls trace : forall seen,
  Forall (fun c => is_loop_call c = true) (@loop_calls Matcher seen trace).
Proof.
  induction trace as [|[conn_id msg] rest IH]; intros seen; simpl.
  - constructor.
  - destruct (existsb (Z.eqb conn_id) seen); repeat constructor; apply IH.
Qed.

Lemma close_calls_are_loop_calls conn_ids time :
  Forall (fun c => is_loop_call c = true) (@close_calls Matcher conn_ids time).
Proof.
  unfold close_calls. induction conn_ids; simpl; constructor; auto.
Qed.

Lemma shell_calls_are_shell_calls calls returned :
  shell_calls calls returned ->
  Forall (fun c => is_shell_call c = true) calls.
Proof.
  induction 1; repeat constructor; assumption.
Qed.

Lemma tail_calls_are_shell_calls allow_shell tail :
  tail_calls allow_shell tail ->
  Forall (fun c => is_shell_call c = true) tail.
Proof.
  unfold tail_calls. destruct allow_shell.
  - intros (shell & returned & Hs & ->). apply Forall_app. split.
    + eapply shell_calls_are_shell_calls; eassumption.
    + destruct returned; repeat constructor.
  - intros ->. repeat constructor.
Qed.

Lemma delivered_loop_calls trace : forall seen,
  delivered (@loop_calls Matcher seen trace) = trace.
Proof.
  induction trace as [|[conn_id msg] rest IH]; intros seen; simpl.
  - reflexivity.
  - destruct (existsb (Z.eqb conn_id) seen); simpl; rewrite IH; reflexivity.
Qed.

Lemma opened_loop_calls trace : forall seen,
  opened (@loop_calls Matcher seen trace) =
  map (fun item => (fst item, opening_hint (snd item), timestamp (snd item)))
      (new_connections seen trace).
Proof.
  induction trace as [|[conn_id msg] rest IH]; intros seen; simpl.
  - reflexivity.
  - destruct (existsb (Z.eqb conn_id) seen); simpl; rewrite IH; reflexivity.
Qed.

Lemma closed_loop_calls trace : forall seen,
  closed (@loop_calls Matcher seen trace) = [].
Proof.
  induction trace as [|[conn_id msg] rest IH]; intros seen; simpl.
  - reflexivity.
  - destruct (existsb (Z.eqb conn_id) seen); simpl; apply IH.
Qed.

Lemma delivered_close_calls conn_ids time :
  delivered (@close_calls Matcher conn_ids time) = [].
Proof. induction conn_ids; simpl; auto. Qed.

Lemma opened_close_calls conn_ids time :
  opened (@close_calls Matcher conn_ids time) = [].
Proof. induction conn_ids; simpl; auto. Qed.

Lemma closed_close_calls conn_ids time :
  closed (@close_calls Matcher conn_ids time) =
  map (fun conn_id => (conn_id, time)) conn_ids.
Proof. induction conn_ids; simpl; congruence. Qed.

(** In the loop, a delivery on a connection not yet known comes after the
    call that opens it. *)
Lemma loop_calls_open_first trace : forall seen pre conn_id msg post,
  @loop_calls Matcher seen trace = pre ++ SessionMessage conn_id msg :: post ->
  In conn_id seen \/
  exists is_server time, In (SessionOpen conn_id is_server time) pre.
Proof.
  induction trace as [|[c0 m0] rest IH]; intros seen pre conn_id msg post H;
    simpl in H.
  - destruct pre; discriminate H.
  - destruct (existsb (Z.eqb c0) seen) eqn:Hseen.
    + destruct pre as [|p pre]; simpl in H.
      * injection H as -> _ _. left. apply existsb_eqb_In. exact Hseen.
      * injection H as _ H. destruct (IH _ _ _ _ _ H) as [Hin | (h & t & Hin)].
        -- left. exact Hin.
        -- right. exists h, t. right. exact Hin.
    + destruct pre as [|p pre]; simpl in H; [discriminate H|].
      injection H as <- H.
      destruct pre as [|p' pre]; simpl in H.
      * injection H as -> _ _. right. eexists _, _. left. reflexivity.
      * injection H as _ H. destruct (IH _ _ _ _ _ H) as [Hin | (h & t & Hin)].
        -- apply in_app_or in Hin. destruct Hin as [Hin | [<- | []]].
           ++ left. exact Hin.
           ++ right. eexists _, _. left. reflexivity.
        -- right. exists h, t. right. right. exact Hin.
Qed.

End CallFacts.

(** ** The loops of [parse_messages] *)

Section DriverFacts.

Context {Matcher S : Type}.
Context {matcher : MatcherModule Matcher}.
Context {wl_session : Session Matcher S}.
Context {imports : Imports S}.

(** The [for] loop returns, and calls exactly [loop_calls]. *)
Lemma for_loop_runs trace : forall (session : S) known_connections last_time,
  exists session' known',
    for_each trace parse_messages_body (session, known_connections, last_time) =
      (loop_calls (dict_keys known_connections) trace,
       Ok (session', known',
           last (map (fun item => timestamp (snd item)) trace) last_time)) /\
    dict_keys known' =
      dict_keys known_connections ++
      map fst (new_connections (dict_keys known_connections) trace).
Proof.
  induction trace as [|[conn_id msg] rest IH]; intros session known last_time.
  - exists session, known. simpl. rewrite app_nil_r. split; reflexivity.
  - cbn [map]. rewrite last_cons_default. cbn [snd].
    cbn [for_each loop_calls new_connections].
    unfold parse_messages_body at 1.
    rewrite dict_contains_keys.
    destruct (existsb (Z.eqb conn_id) (dict_keys known)) eqn:Hseen; cbn [negb].
    + destruct (IH (message session conn_id msg) known (timestamp msg))
        as (s' & k' & Heq & Hkeys).
      exists s', k'. split; [|exact Hkeys].
      unfold session_message, call, ret, bind. cbn.
      unfold bind in Heq. rewrite Heq. reflexivity.
    + destruct (IH (message
                      (open_connection session conn_id
                         (if String.eqb (name msg) "get_registry"
                          then Some (negb (sent msg)) else None)
                         (timestamp msg)) conn_id msg)
                   (dict_set known conn_id true) (timestamp msg))
        as (s' & k' & Heq & Hkeys).
      rewrite (dict_set_new_key _ _ _ Hseen) in Heq, Hkeys.
      exists s', k'. split.
      * unfold session_open_connection, session_message, call, ret, bind. cbn.
        unfold bind in Heq. rewrite Heq. reflexivity.
      * rewrite Hkeys. cbn [map fst]. rewrite <- app_assoc. reflexivity.
Qed.

(** The closing loop returns, and calls exactly [close_calls]. *)
Lemma close_connections_runs conn_ids : forall (session : S) last_time,
  exists session',
    close_connections session conn_ids last_time =
      (close_calls conn_ids last_time, Ok session').
Proof.
  unfold close_connections.
  induction conn_ids as [|conn_id rest IH]; intros session last_time.
  - exists session. reflexivity.
  - destruct (IH (close_connection session conn_id last_time) last_time)
      as (s' & Heq).
    exists s'. cbn [for_each close_calls map].
    change (session_close_connection session conn_id last_time)
      with ([SessionClose conn_id last_time] : list (Call Matcher),
            Ok (close_connection session conn_id last_time)).
    unfold bind at 1. rewrite Heq. reflexivity.
Qed.

(** Every run of [interactive_shell] on a finite input ends: it returns, or
    raises [EOFError] when the input is used up. *)
Lemma interactive_shell_runs tty : forall session : S,
  exists returned,
    shell_calls (calls_of (interactive_shell session tty)) returned /\
    if returned
    then exists session' tty', result_of (interactive_shell session tty)
                                 = Ok (session', tty')
    else result_of (interactive_shell session tty) = Raise EOFError.
Proof.
  induction tty as [|cmd tty IH]; intros session.
  - cbn [interactive_shell]. unfold session_stopped, session_quit, call, ret, bind.
    destruct (stopped session) as [[|] s1]; cbn.
    + destruct (quit s1) as [[|] s2]; cbn.
      * exists true. split; [constructor|]. eexists _, _. reflexivity.
      * exists false. split; [constructor|]. reflexivity.
    + exists true. split; [constructor|]. eexists _, _. reflexivity.
  - cbn [interactive_shell].
    unfold session_stopped, session_quit, session_command, call, ret, bind.
    destruct (stopped session) as [[|] s1]; cbn.
    + destruct (quit s1) as [[|] s2]; cbn.
      * exists true. split; [constructor|]. eexists _, _. reflexivity.
      * destruct (IH (command s2 cmd)) as (returned & Hcalls & Hres).
        unfold calls_of, result_of in *.
        destruct (interactive_shell (command s2 cmd) tty) as [calls r].
        cbn in *. exists returned. split; [constructor; exact Hcalls|].
        exact Hres.
    + exists true. split; [constructor|]. eexists _, _. reflexivity.
Qed.

(** The calls of [parse_messages], part by part. *)
Lemma parse_messages_calls (session : S) input_file allow_shell tty :
  exists tail,
    calls_of (parse_messages session input_file allow_shell tty) =
      OutputLog "Parsing messages"
        :: loop_calls [] (parse_file input_file)
        ++ close_calls (map fst (new_connections [] (parse_file input_file)))
             (last_timestamp (parse_file input_file))
        ++ tail /\
    tail_calls allow_shell tail.
Proof.
  unfold parse_messages.
  destruct (for_loop_runs (parse_file input_file) session [] 0%Z)
    as (s1 & known & Hloop & Hkeys).
  cbn [dict_keys map app] in Hloop, Hkeys.
  destruct (close_connections_runs (dict_keys known) s1
              (last_timestamp (parse_file input_file))) as (s2 & Hclose).
  unfold last_timestamp in *.
  unfold output_log, call, ret, bind at 1 2. rewrite Hloop. cbn [app].
  unfold bind at 1. cbn iota beta. rewrite Hclose. rewrite Hkeys.
  destruct allow_shell.
  - destruct (interactive_shell_runs tty s2) as (returned & Hcalls & Hres).
    unfold calls_of, result_of in *.
    destruct (interactive_shell s2 tty) as [shell r]. cbn in Hcalls, Hres.
    destruct returned.
    + destruct Hres as (s3 & tty3 & ->).
      exists (shell ++ [OutputLog "Done"]). split.
      * cbn. reflexivity.
      * exists shell, true. split; [exact Hcalls | reflexivity].
    + rewrite Hres. exists shell. split.
      * cbn. reflexivity.
      * exists shell, false. split; [exact Hcalls|]. rewrite app_nil_r. reflexivity.
  - exists [OutputLog "Done"]. split; [cbn; reflexivity | reflexivity].
Qed.

End DriverFacts.

(** ** Connections in order of first appearance *)

Lemma new_connections_In trace : forall seen conn_id,
  In conn_id (map fst (new_connections seen trace)) <->
  In conn_id (map fst trace) /\ ~ In conn_id seen.
Proof.
  induction trace as [|[c0 m0] rest IH]; intros seen conn_id; simpl.
  - tauto.
  - destruct (existsb (Z.eqb c0) seen) eqn:Hseen.
    + apply existsb_eqb_In in Hseen. rewrite IH. split.
      * intros [H1 H2]. split; [right; exact H1 | exact H2].
      * intros [[-> | H1] H2]; [contradiction | split; assumption].
    + apply existsb_eqb_not_In in Hseen. simpl. rewrite IH. split.
      * intros [<- | [H1 H2]].
        -- split; [left; reflexivity | exact Hseen].
        -- split; [right; exact H1|]. intros H. apply H2. apply in_or_app.
           left. exact H.
      * intros [[-> | H1] H2]; [left; reflexivity|].
        destruct (Z.eq_dec c0 conn_id) as [-> | Hne]; [left; reflexivity|].
        right. split; [exact H1|]. intros H. apply in_app_or in H.
        destruct H as [H | [H | []]]; [contradiction | congruence].
Qed.

Lemma new_connections_NoDup trace : forall seen,
  NoDup seen -> NoDup (seen ++ map fst (new_connections seen trace)).
Proof.
  induction trace as [|[c0 m0] rest IH]; intros seen Hnd; simpl.
  - rewrite app_nil_r. exact Hnd.
  - destruct (existsb (Z.eqb c0) seen) eqn:Hseen.
    + apply IH. exact Hnd.
    + apply existsb_eqb_not_In in Hseen. simpl.
      change (seen ++ c0 :: map fst (new_connections (seen ++ [c0]) rest))
        with (seen ++ [c0] ++ map fst (new_connections (seen ++ [c0]) rest)).
      rewrite app_assoc. apply IH.
      apply NoDup_app. repeat split.
      * exact Hnd.
      * constructor; [intros [] | constructor].
      * intros x Hx [<- | []]. contradiction.
Qed.

Lemma count_occ_NoDup (l : list ConnId) (k : ConnId) :
  NoDup l ->
  count_occ Z.eq_dec l k = if existsb (Z.eqb k) l then 1 else 0.
Proof.
  intros Hnd. destruct (existsb (Z.eqb k) l) eqn:Hk.
  - apply existsb_eqb_In in Hk.
    apply (proj1 (NoDup_count_occ' Z.eq_dec l) Hnd). exact Hk.
  - apply existsb_eqb_not_In in Hk. apply count_occ_not_In. exact Hk.
Qed.

Lemma existsb_eqb_ext (k : ConnId) (l1 l2 : list ConnId) :
  (In k l1 <-> In k l2) ->
  existsb (Z.eqb k) l1 = existsb (Z.eqb k) l2.
Proof.
  intros H. destruct (existsb (Z.eqb k) l2) eqn:H2.
  - apply existsb_eqb_In. apply H. apply existsb_eqb_In. exact H2.
  - apply existsb_eqb_not_In. intros H1. apply H in H1.
    apply existsb_eqb_In in H1. congruence.
Qed.

(** ** The shell *)

Section ShellFacts.

Context {Matcher : Type}.

(** A command comes right after [stopped()] answered true, [quit()]
    answered false and the line was read. *)
Lemma shell_calls_guard (calls : list (Call Matcher)) returned :
  shell_calls calls returned ->
  forall pre cmd post,
    calls = pre ++ SessionCommand cmd :: post ->
    exists pre',
      pre = pre' ++ [SessionStopped true; SessionQuit false;
                     Input prompt (Some cmd)].
Proof.
  induction 1 as [| | |cmd0 rest returned Hrest IH]; intros pre cmd post H.
  1-3: assert (Hin : In (@SessionCommand Matcher cmd) (pre ++ SessionCommand cmd :: post))
         by apply in_elt;
       rewrite <- H in Hin; simpl in Hin;
       repeat (destruct Hin as [Hin | Hin]; [discriminate Hin|]); contradiction.
  destruct pre as [|p1 pre]; [discriminate H|]. injection H as <- H.
  destruct pre as [|p2 pre]; [discriminate H|]. injection H as <- H.
  destruct pre as [|p3 pre]; [discriminate H|]. injection H as <- H.
  destruct pre as [|p4 pre]; simpl in H.
  - injection H as -> _. exists []. reflexivity.
  - injection H as <- H. destruct (IH _ _ _ H) as (pre' & ->).
    exists (SessionStopped true :: SessionQuit false
              :: Input prompt (Some cmd0) :: SessionCommand cmd0 :: pre').
    reflexivity.
Qed.

(** Once [quit()] answers true the shell returns without another call. *)
Lemma shell_calls_quit (calls : list (Call Matcher)) returned :
  shell_calls calls returned ->
  forall pre post,
    calls = pre ++ SessionQuit true :: post ->
    post = [] /\ returned = true.
Proof.
  induction 1 as [| | |cmd0 rest returned Hrest IH]; intros pre post H.
  - destruct pre as [|p1 pre]; [discriminate H|]. injection H as _ H.
    destruct pre; discriminate H.
  - destruct pre as [|p1 pre]; [discriminate H|]. injection H as _ H.
    destruct pre as [|p2 pre]; simpl in H.
    + injection H as <-. split; reflexivity.
    + injection H as _ H. destruct pre; discriminate H.
  - destruct pre as [|p1 pre]; [discriminate H|]. injection H as _ H.
    destruct pre as [|p2 pre]; [discriminate H|]. injection H as _ H.
    destruct pre as [|p3 pre]; [discriminate H|]. injection H as _ H.
    destruct pre; discriminate H.
  - destruct pre as [|p1 pre]; [discriminate H|]. injection H as _ H.
    destruct pre as [|p2 pre]; [discriminate H|]. injection H as _ H.
    destruct pre as [|p3 pre]; [discriminate H|]. injection H as _ H.
    destruct pre as [|p4 pre]; [discriminate H|]. injection H as _ H.
    exact (IH _ _ H).
Qed.

Lemma not_in_shell_part (calls : list (Call Matcher)) (c : Call Matcher) :
  Forall (fun c => is_shell_call c = true) calls ->
  is_shell_call c = false -> ~ In c calls.
Proof.
  intros Hall Hc Hin. rewrite Forall_forall in Hall.
  rewrite (Hall _ Hin) in Hc. discriminate Hc.
Qed.

Lemma not_in_loop_part (calls : list (Call Matcher)) (c : Call Matcher) :
  Forall (fun c => is_loop_call c = true) calls ->
  is_loop_call c = false -> ~ In c calls.
Proof.
  intros Hall Hc Hin. rewrite Forall_forall in Hall.
  rewrite (Hall _ Hin) in Hc. discriminate Hc.
Qed.

End ShellFacts.

(** ** [parse_messages] and [interactive_shell] *)

Section ParseMessages.

Context {Matcher S : Type}.
Context {matcher : MatcherModule Matcher}.
Context {wl_session : Session Matcher S}.
Context {imports : Imports S}.

Lemma delivered_parse_messages (session : S) input_file allow_shell tty :
  delivered (calls_of (parse_messages session input_file allow_shell tty)) =
  parse_file input_file.
Proof.
  destruct (parse_messages_calls session input_file allow_shell tty)
    as (tail & -> & Htail).
  apply tail_calls_are_shell_calls, shell_call_extracts in Htail.
  destruct Htail as (Hd & _).
  change (OutputLog "Parsing messages" :: ?l) with ([@OutputLog Matcher "Parsing messages"] ++ l).
  rewrite !delivered_app, delivered_loop_calls, delivered_close_calls, Hd.
  simpl. rewrite app_nil_r. reflexivity.
Qed.

Lemma opened_parse_messages (session : S) input_file allow_shell tty :
  opened (calls_of (parse_messages session input_file allow_shell tty)) =
  map (fun item => (fst item, opening_hint (snd item), timestamp (snd item)))
      (new_connections [] (parse_file input_file)).
Proof.
  destruct (parse_messages_calls session input_file allow_shell tty)
    as (tail & -> & Htail).
  apply tail_calls_are_shell_calls, shell_call_extracts in Htail.
  destruct Htail as (_ & Ho & _).
  change (OutputLog "Parsing messages" :: ?l) with ([@OutputLog Matcher "Parsing messages"] ++ l).
  rewrite !opened_app, opened_loop_calls, opened_close_calls, Ho.
  simpl. rewrite app_nil_r. reflexivity.
Qed.

Lemma closed_parse_messages (session : S) input_file allow_shell tty :
  closed (calls_of (parse_messages session input_file allow_shell tty)) =
  map (fun conn_id => (conn_id, last_timestamp (parse_file input_file)))
      (map fst (new_connections [] (parse_file input_file))).
Proof.
  destruct (parse_messages_calls session input_file allow_shell tty)
    as (tail & -> & Htail).
  apply tail_calls_are_shell_calls, shell_call_extracts in Htail.
  destruct Htail as (_ & _ & Hc & _).
  change (OutputLog "Parsing messages" :: ?l) with ([@OutputLog Matcher "Parsing messages"] ++ l).
  rewrite !closed_app, closed_loop_calls, closed_close_calls, Hc.
  simpl. rewrite app_nil_r. reflexivity.
Qed.

Lemma constructed_parse_messages (session : S) input_file allow_shell tty :
  constructed (calls_of (parse_messages session input_file allow_shell tty)) = [].
Proof.
  destruct (parse_messages_calls session input_file allow_shell tty)
    as (tail & -> & Htail).
  apply tail_calls_are_shell_calls, shell_call_extracts in Htail.
  destruct Htail as (_ & _ & _ & Hc).
  change (OutputLog "Parsing messages" :: ?l) with ([@OutputLog Matcher "Parsing messages"] ++ l).
  rewrite !constructed_app, Hc.
  rewrite (proj2 (proj2 (loop_call_extracts _ (loop_calls_are_loop_calls _ _)))).
  rewrite (proj2 (proj2 (loop_call_extracts _ (close_calls_are_loop_calls _ _)))).
  reflexivity.
Qed.

Lemma opened_ids_parse_messages (session : S) input_file allow_shell tty :
  opened_ids (calls_of (parse_messages session input_file allow_shell tty)) =
  map fst (new_connections [] (parse_file input_file)).
Proof.
  unfold opened_ids. rewrite opened_parse_messages, map_map. reflexivity.
Qed.

Lemma closed_ids_parse_messages (session : S) input_file allow_shell tty :
  closed_ids (calls_of (parse_messages session input_file allow_shell tty)) =
  map fst (new_connections [] (parse_file input_file)).
Proof.
  unfold closed_ids. rewrite closed_parse_messages, map_map. simpl.
  apply map_id.
Qed.

(** The calls before the shell and the calls of the shell, apart. *)
Lemma parse_messages_parts (session : S) input_file allow_shell tty :
  exists front tail,
    calls_of (parse_messages session input_file allow_shell tty) = front ++ tail /\
    Forall (fun c => is_loop_call c = true) front /\
    tail_calls allow_shell tail /\
    delivered front = parse_file input_file.
Proof.
  destruct (parse_messages_calls session input_file allow_shell tty)
    as (tail & Heq & Htail).
  exists (OutputLog "Parsing messages"
            :: loop_calls [] (parse_file input_file)
            ++ close_calls (map fst (new_connections [] (parse_file input_file)))
                 (last_timestamp (parse_file input_file))), tail.
  split; [|split; [|split]].
  - rewrite Heq. simpl. rewrite <- app_assoc. reflexivity.
  - constructor; [reflexivity|]. apply Forall_app. split.
    + apply loop_calls_are_loop_calls.
    + apply close_calls_are_loop_calls.
  - exact Htail.
  - change (OutputLog "Parsing messages" :: ?l) with ([@OutputLog Matcher "Parsing messages"] ++ l).
    rewrite !delivered_app, delivered_loop_calls, delivered_close_calls.
    simpl. rewrite app_nil_r. reflexivity.
Qed.

(** C1.  For every finite decoded trace, [parse_messages] hands the records
    to [Session.message] exactly as the decoder yields them: each one once,
    in the same order, none skipped, whatever the session does and whether
    or not the shell runs afterwards. *)
Theorem parse_messages_delivers_each_record_once_in_order
  (session : S) (input_file : File) (allow_shell : bool) (tty : File) :
  delivered (calls_of (parse_messages session input_file allow_shell tty)) =
  parse_file input_file.
Proof. apply delivered_parse_messages. Qed.

(** C4.  When the decoder yields the single record
    [(t=0, conn=1, sent, obj=1, "get_registry", [])], connection 1 is opened
    once, with [is_server = False] at time 0, that is in the role [Client];
    nothing but the record itself provides the hint. *)
Theorem get_registry_scenario_opens_client
  (session : S) (input_file : File) (allow_shell : bool) (tty : File) :
  parse_file input_file = [(1%Z, get_registry_sent)] ->
  let calls := calls_of (parse_messages session input_file allow_shell tty) in
  opened calls = [(1%Z, Some false, 0%Z)] /\
  driver_role (opened calls) 1%Z = Some Client.
Proof.
  intros Htrace calls. subst calls.
  rewrite opened_parse_messages, Htrace. split; reflexivity.
Qed.

(** C9.  On every finite trace the driver opens each connection id of the
    trace exactly once and no other, every delivery comes after the call
    that opens its connection, the connections closed are exactly the
    connections opened, each once and in opening order, every close carries
    the timestamp of the last record of the whole trace, and every close
    comes after the whole trace has been delivered. *)
Theorem connections_opened_once_and_closed_once_at_last_time
  (session : S) (input_file : File) (allow_shell : bool) (tty : File) :
  let trace := parse_file input_file in
  let calls := calls_of (parse_messages session input_file allow_shell tty) in
  (forall conn_id,
     count_occ Z.eq_dec (opened_ids calls) conn_id =
     if existsb (Z.eqb conn_id) (map fst trace) then 1 else 0) /\
  (forall pre conn_id msg post,
     calls = pre ++ SessionMessage conn_id msg :: post ->
     exists is_server time, In (SessionOpen conn_id is_server time) pre) /\
  closed_ids calls = opened_ids calls /\
  (forall conn_id,
     count_occ Z.eq_dec (closed_ids calls) conn_id =
     if existsb (Z.eqb conn_id) (opened_ids calls) then 1 else 0) /\
  (forall conn_id time,
     In (SessionClose conn_id time) calls -> time = last_timestamp trace) /\
  (forall pre conn_id time post,
     calls = pre ++ SessionClose conn_id time :: post ->
     delivered pre = trace /\ delivered post = []).
Proof.
  intros trace calls. subst calls trace.
  set (trace := parse_file input_file).
  assert (Hnd : NoDup (map fst (new_connections [] trace)))
    by (apply (new_connections_NoDup trace []); constructor).
  destruct (parse_messages_calls session input_file allow_shell tty)
    as (tail & Heq & Htail). fold trace in Heq.
  pose proof (shell_call_extracts _ (tail_calls_are_shell_calls _ _ Htail))
    as (Hdtail & _ & Hctail & _).
  split; [|split; [|split; [|split; [|split]]]].
  - intros conn_id. rewrite opened_ids_parse_messages. fold trace.
    rewrite (count_occ_NoDup _ _ Hnd).
    rewrite (existsb_eqb_ext conn_id (map fst (new_connections [] trace))
               (map fst trace)); [reflexivity|].
    rewrite new_connections_In. tauto.
  - intros pre conn_id msg post H. rewrite Heq in H.
    destruct pre as [|p pre]; [discriminate H|]. injection H as <- H.
    apply split_before in H.
    + destruct H as (mid & Hloop & _).
      destruct (loop_calls_open_first _ _ _ _ _ _ Hloop) as [[] | (h & t & Hin)].
      exists h, t. right. exact Hin.
    + apply not_delivered_not_In.
      rewrite delivered_app, delivered_close_calls, Hdtail. reflexivity.
  - rewrite closed_ids_parse_messages, opened_ids_parse_messages. reflexivity.
  - intros conn_id.
    rewrite closed_ids_parse_messages, opened_ids_parse_messages. fold trace.
    apply count_occ_NoDup. exact Hnd.
  - intros conn_id time Hin. apply In_closed in Hin.
    rewrite closed_parse_messages in Hin. apply in_map_iff in Hin.
    destruct Hin as (c & Hc & _). injection Hc as _ <-. reflexivity.
  - intros pre conn_id time post H.
    pose proof (delivered_parse_messages session input_file allow_shell tty) as Hall.
    rewrite H in Hall. rewrite Heq in H.
    assert (Hpost : delivered post = []).
    { change (OutputLog "Parsing messages" :: loop_calls [] trace ++ ?l)
        with ((@OutputLog Matcher "Parsing messages" :: loop_calls [] trace) ++ l) in H.
      apply split_after in H.
      - destruct H as (mid & _ & H). apply split_before in H.
        + destruct H as (mid' & Hclose & ->).
          pose proof (delivered_close_calls (Matcher := Matcher)
                        (map fst (new_connections [] trace))
                        (last_timestamp trace)) as Hd.
          rewrite Hclose, delivered_app in Hd. apply app_eq_nil in Hd.
          destruct Hd as (_ & Hd). simpl in Hd.
          rewrite delivered_app, Hd, Hdtail. reflexivity.
        + apply not_closed_not_In. exact Hctail.
      - apply not_closed_not_In. simpl. apply closed_loop_calls. }
    split; [|exact Hpost].
    rewrite delivered_app in Hall. simpl in Hall. rewrite Hpost, app_nil_r in Hall.
    exact Hall.
Qed.

(** C6.  [Session.command] is called only from the shell loop, and each
    call follows at once on [stopped()] answering true, [quit()] answering
    false and the line being read, with no other call on the session in
    between.  This holds for the shell alone and for the whole of
    [parse_messages]. *)
Theorem command_only_while_stopped_and_not_quit
  (session : S) (input_file : File) (allow_shell : bool) (tty : File) :
  (forall pre cmd post,
     calls_of (interactive_shell session tty) =
       pre ++ SessionCommand cmd :: post ->
     exists pre',
       pre = pre' ++ [SessionStopped true; SessionQuit false;
                      Input prompt (Some cmd)]) /\
  (forall pre cmd post,
     calls_of (parse_messages session input_file allow_shell tty) =
       pre ++ SessionCommand cmd :: post ->
     exists pre',
       pre = pre' ++ [SessionStopped true; SessionQuit false;
                      Input prompt (Some cmd)]).
Proof.
  split.
  - intros pre cmd post H.
    destruct (interactive_shell_runs tty session) as (returned & Hcalls & _).
    exact (shell_calls_guard _ _ Hcalls _ _ _ H).
  - intros pre cmd post H.
    destruct (parse_messages_parts session input_file allow_shell tty)
      as (front & tail & Heq & Hfront & Htail & _).
    rewrite Heq in H. apply split_after in H.
    + destruct H as (mid & -> & Ht).
      unfold tail_calls in Htail. destruct allow_shell.
      * destruct Htail as (shell & returned & Hshell & ->).
        apply split_before in Ht.
        -- destruct Ht as (mid' & Hs & _).
           destruct (shell_calls_guard _ _ Hshell _ _ _ Hs) as (pre' & ->).
           exists (front ++ pre'). rewrite app_assoc. reflexivity.
        -- destruct returned; simpl; [intros [Hd | []]; discriminate Hd | intros []].
      * rewrite Htail in Ht. destruct mid as [|m mid]; [discriminate Ht|].
        injection Ht as _ Ht. destruct mid; discriminate Ht.
    + apply not_in_loop_part; [exact Hfront | reflexivity].
Qed.

(** C5, amended.  The driving loop does not look at the session state
    between records.  Every record of the trace is delivered, whatever state
    the session is in; [stopped()] and [quit()] are asked only afterwards,
    by the shell, when the whole trace has been delivered and every
    connection closed, and not at all when the shell is not allowed.  Once
    [quit()] answers true the driver reads no further command: it logs
    [Done] and returns. *)
Theorem quit_checked_only_after_the_trace
  (session : S) (input_file : File) (allow_shell : bool) (tty : File) :
  let trace := parse_file input_file in
  let calls := calls_of (parse_messages session input_file allow_shell tty) in
  delivered calls = trace /\
  (forall pre query post,
     calls = pre ++ query :: post -> is_query query = true ->
     delivered pre = trace /\ closed pre = closed calls /\
     delivered post = [] /\ closed post = []) /\
  (allow_shell = false -> queries calls = []) /\
  (forall pre post,
     calls = pre ++ SessionQuit true :: post -> post = [OutputLog "Done"]).
Proof.
  intros trace calls. subst calls trace.
  destruct (parse_messages_parts session input_file allow_shell tty)
    as (front & tail & Heq & Hfront & Htail & Hdel).
  pose proof (tail_calls_are_shell_calls _ _ Htail) as Hshell.
  split; [apply delivered_parse_messages|]. split; [|split].
  - intros pre query post H Hq. rewrite Heq in H |- *.
    apply split_after in H.
    + destruct H as (mid & -> & Ht). rewrite Ht in Hshell.
      apply Forall_app in Hshell. destruct Hshell as (Hmid & Hpost).
      apply Forall_cons_iff in Hpost. destruct Hpost as (_ & Hpost).
      destruct (shell_call_extracts _ Hmid) as (Hd1 & _ & Hc1 & _).
      destruct (shell_call_extracts _ Hpost) as (Hd2 & _ & Hc2 & _).
      rewrite Ht, !delivered_app, !closed_app, Hd1, Hc1, Hc2, Hdel.
      destruct query; try discriminate Hq; simpl;
        rewrite ?Hc2, ?Hd2, ?app_nil_r; auto.
    + apply not_in_loop_part; [exact Hfront|].
      destruct query; try discriminate Hq; reflexivity.
  - intros ->. rewrite Heq. unfold tail_calls in Htail. subst tail.
    pose proof (proj1 (loop_call_extracts _ Hfront)) as Hqf.
    unfold queries in *. rewrite filter_app, Hqf. reflexivity.
  - intros pre post H. rewrite Heq in H. apply split_after in H.
    + destruct H as (mid & -> & Ht).
      unfold tail_calls in Htail. destruct allow_shell.
      * destruct Htail as (shell & returned & Hs & ->).
        apply split_before in Ht.
        -- destruct Ht as (mid' & Hsplit & ->).
           destruct (shell_calls_quit _ _ Hs _ _ Hsplit) as (-> & ->).
           reflexivity.
        -- destruct returned; simpl; [intros [Hd | []]; discriminate Hd | intros []].
      * rewrite Htail in Ht. destruct mid as [|m mid]; [discriminate Ht|].
        injection Ht as _ Ht. destruct mid; discriminate Ht.
    + apply not_in_loop_part; [exact Hfront | reflexivity].
Qed.

End ParseMessages.

(** ** [main] *)

Lemma truthy_nonempty (s : string) : s <> "" -> truthy (Some s) = Some s.
Proof.
  intros H. unfold truthy. apply String.eqb_neq in H. rewrite H. reflexivity.
Qed.

Section MonadFacts.

Context {Matcher : Type}.

Lemma constructs_nothing_bind {A B} (m : M Matcher A) (k : A -> M Matcher B) :
  constructs_nothing m -> (forall a, constructs_nothing (k a)) ->
  constructs_nothing (bind m k).
Proof.
  unfold constructs_nothing, calls_of, bind. intros Hm Hk.
  destruct m as [calls [a|e]]; simpl in *.
  - specialize (Hk a). destruct (k a) as [calls' r]. simpl in *.
    rewrite constructed_app, Hm, Hk. reflexivity.
  - exact Hm.
Qed.

Lemma constructs_nothing_try {A} (body handler : M Matcher A) catches :
  constructs_nothing body -> constructs_nothing handler ->
  constructs_nothing (try_except body catches handler).
Proof.
  unfold constructs_nothing, calls_of, try_except. intros Hb Hh.
  destruct body as [calls [a|e]]; simpl in *.
  - exact Hb.
  - destruct (catches e); simpl.
    + destruct handler as [calls' r]. simpl in *.
      rewrite constructed_app, Hb, Hh. reflexivity.
    + exact Hb.
Qed.

End MonadFacts.

Section Main.

Context {Matcher S : Type}.
Context {matcher : MatcherModule Matcher}.
Context {wl_session : Session Matcher S}.
Context {imports : Imports S}.

Lemma file_input_main_constructs_nothing (session : S) file_path env :
  constructs_nothing (file_input_main session file_path env).
Proof.
  unfold file_input_main.
  apply constructs_nothing_bind; [reflexivity | intros _].
  apply constructs_nothing_try.
  - apply constructs_nothing_bind.
    + unfold builtin_open. destruct (fs_open env file_path); reflexivity.
    + intros input_file. apply constructs_nothing_bind.
      * apply constructed_parse_messages.
      * intros [s' tty']. reflexivity.
  - reflexivity.
Qed.

Lemma piped_input_main_constructs_nothing (session : S) env :
  constructs_nothing (piped_input_main session env).
Proof.
  unfold piped_input_main.
  apply constructs_nothing_bind; [reflexivity | intros _].
  apply constructs_nothing_bind.
  - apply constructed_parse_messages.
  - intros [s' tty']. reflexivity.
Qed.

Lemma main_input_constructs_nothing args env (session : S) :
  constructs_nothing (main_input args env session).
Proof.
  unfold main_input. destruct (check_gdb env).
  - apply constructs_nothing_try; [|reflexivity].
    apply constructs_nothing_bind.
    + destruct (truthy (path args)); reflexivity.
    + intros _. apply constructs_nothing_bind; [reflexivity | intros _].
      destruct (gdb_plugin_main session); reflexivity.
  - destruct (truthy (path args)) as [file_path|].
    + apply constructs_nothing_bind; [|reflexivity].
      apply file_input_main_constructs_nothing.
    + apply constructs_nothing_bind.
      * destruct (truthy (b args)); reflexivity.
      * intros _. apply constructs_nothing_bind; [|reflexivity].
        apply piped_input_main_constructs_nothing.
Qed.

(** Without [--gdb] and [--matcher-help] the option phase returns, and it
    constructs no session. *)
Lemma main_options_runs args env :
  gdb args = false -> matcher_help args = false ->
  exists options : list (Call Matcher),
    main_options args env = (options, Ok tt) /\ constructed options = [].
Proof.
  intros Hg Hh. unfold main_options. rewrite Hg, Hh.
  unfold when, output_log, output_warn, call, ret, bind, raise.
  destruct (check_gdb env), (no_color args), (color_flag args), (verbose args),
    (supress args); cbn -[rainbow]; eexists; split; reflexivity.
Qed.

(** The three ways lines 112-118 can go. *)
Lemma main_filter_matcher_cases args :
  main_filter_matcher args =
  match truthy (f args) with
  | Some query =>
      match parse query with
      | inr parsed =>
          ([OutputLog ("Filter matcher: " ++ str (simplify parsed))],
           Ok (simplify parsed))
      | inl e => ([OutputError e], Ok always)
      end
  | None => ([], Ok always)
  end.
Proof.
  unfold main_filter_matcher. destruct (truthy (f args)) as [query|];
    [destruct (parse query)|]; reflexivity.
Qed.

(** The three ways lines 120-126 can go. *)
Lemma main_stop_matcher_cases args :
  main_stop_matcher args =
  match truthy (b args) with
  | Some query =>
      match parse query with
      | inr parsed =>
          ([OutputLog ("Break matcher: " ++ str (simplify parsed))],
           Ok (simplify parsed))
      | inl e => ([OutputError e], Ok never)
      end
  | None => ([], Ok never)
  end.
Proof.
  unfold main_stop_matcher. destruct (truthy (b args)) as [query|];
    [destruct (parse query)|]; reflexivity.
Qed.

(** [main], part by part, when it gets past the option phase. *)
Lemma main_runs args env :
  gdb args = false -> matcher_help args = false ->
  exists options filter_calls filter_matcher stop_calls stop_matcher,
    main_filter_matcher args = (filter_calls, Ok filter_matcher) /\
    main_stop_matcher args = (stop_calls, Ok stop_matcher) /\
    calls_of (main args env) =
      (options ++ filter_calls ++ stop_calls ++ [ProtocolLoadAll])
      ++ SessionNew filter_matcher stop_matcher
      :: calls_of (main_input args env (Session_init filter_matcher stop_matcher)) /\
    result_of (main args env) =
      result_of (main_input args env (Session_init filter_matcher stop_matcher)) /\
    constructed (options ++ filter_calls ++ stop_calls ++ [ProtocolLoadAll]) = [].
Proof.
  intros Hg Hh.
  destruct (main_options_runs args env Hg Hh) as (options & Hopt & Hco).
  assert (Hf : exists filter_calls filter_matcher,
             main_filter_matcher args = (filter_calls, Ok filter_matcher) /\
             constructed filter_calls = []).
  { rewrite main_filter_matcher_cases.
    destruct (truthy (f args)) as [query|]; [destruct (parse query)|];
      eexists _, _; split; reflexivity. }
  assert (Hs : exists stop_calls stop_matcher,
             main_stop_matcher args = (stop_calls, Ok stop_matcher) /\
             constructed stop_calls = []).
  { rewrite main_stop_matcher_cases.
    destruct (truthy (b args)) as [query|]; [destruct (parse query)|];
      eexists _, _; split; reflexivity. }
  destruct Hf as (filter_calls & filter_matcher & Hf & Hcf).
  destruct Hs as (stop_calls & stop_matcher & Hs & Hcs).
  exists options, filter_calls, filter_matcher, stop_calls, stop_matcher.
  split; [exact Hf|]. split; [exact Hs|].
  assert (Hmain : main args env =
            ((options ++ filter_calls ++ stop_calls ++ [ProtocolLoadAll])
             ++ SessionNew filter_matcher stop_matcher
             :: calls_of (main_input args env
                            (Session_init filter_matcher stop_matcher)),
             result_of (main_input args env
                          (Session_init filter_matcher stop_matcher)))).
  { unfold main, session_new. rewrite Hopt, Hf, Hs.
    unfold call, ret, bind, calls_of, result_of. cbn.
    destruct (main_input args env (Session_init filter_matcher stop_matcher))
      as [calls r]. cbn.
    rewrite <- !app_assoc. reflexivity. }
  rewrite Hmain. split; [reflexivity|]. split; [reflexivity|].
  rewrite !constructed_app, Hco, Hcf, Hcs. reflexivity.
Qed.

(** The session [main] constructs, and that it constructs only one. *)
Lemma main_constructs args env :
  gdb args = false -> matcher_help args = false ->
  exists filter_calls filter_matcher stop_calls stop_matcher,
    main_filter_matcher args = (filter_calls, Ok filter_matcher) /\
    main_stop_matcher args = (stop_calls, Ok stop_matcher) /\
    constructed (calls_of (main args env)) = [(filter_matcher, stop_matcher)].
Proof.
  intros Hg Hh.
  destruct (main_runs args env Hg Hh)
    as (options & fc & fm & sc & sm & Hf & Hs & Hcalls & _ & Hbefore).
  exists fc, fm, sc, sm. split; [exact Hf|]. split; [exact Hs|].
  rewrite Hcalls, constructed_app, Hbefore. simpl.
  rewrite (main_input_constructs_nothing args env (Session_init fm sm)).
  reflexivity.
Qed.

End Main.

(** ** The matchers the session is constructed with *)

Section MainClaims.

Context {Matcher S : Type}.
Context {matcher : MatcherModule Matcher}.
Context {wl_session : Session Matcher S}.
Context {imports : Imports S}.

(** C7.  When [main] gets to construct the session, it constructs exactly
    one; without a filter query its filter matcher is [always], and without
    a break query its stop matcher is [never]. *)
Theorem defaults_are_always_and_never (args : Args) (env : Environ) :
  gdb args = false -> matcher_help args = false ->
  exists filter_matcher stop_matcher,
    constructed (calls_of (main args env)) = [(filter_matcher, stop_matcher)] /\
    (f args = None -> filter_matcher = always) /\
    (b args = None -> stop_matcher = never).
Proof.
  intros Hg Hh.
  destruct (main_constructs args env Hg Hh)
    as (fc & fm & sc & sm & Hf & Hs & Hc).
  exists fm, sm. split; [exact Hc|]. split.
  - intros Hnone. rewrite main_filter_matcher_cases, Hnone in Hf. simpl in Hf.
    injection Hf as _ <-. reflexivity.
  - intros Hnone. rewrite main_stop_matcher_cases, Hnone in Hs. simpl in Hs.
    injection Hs as _ <-. reflexivity.
Qed.

(** C2.  A filter query that [main] tries to parse (one that is given and
    not empty) and that the parser rejects is reported through
    [output.error], the session is then constructed with the filter matcher
    [always], and [main] carries on with the input exactly as it does after
    a successful parse.  Likewise a rejected break query is reported and the
    session is constructed with the stop matcher [never]. *)
Theorem rejected_query_is_reported_and_default_kept (args : Args) (env : Environ) :
  gdb args = false -> matcher_help args = false ->
  (forall query e,
     f args = Some query -> query <> "" -> parse query = inl e ->
     exists before stop_matcher,
       calls_of (main args env) =
         before ++ SessionNew always stop_matcher
           :: calls_of (main_input args env (Session_init always stop_matcher)) /\
       In (OutputError e) before /\
       constructed (calls_of (main args env)) = [(always, stop_matcher)] /\
       result_of (main args env) =
         result_of (main_input args env (Session_init always stop_matcher))) /\
  (forall query e,
     b args = Some query -> query <> "" -> parse query = inl e ->
     exists before filter_matcher,
       calls_of (main args env) =
         before ++ SessionNew filter_matcher never
           :: calls_of (main_input args env (Session_init filter_matcher never)) /\
       In (OutputError e) before /\
       constructed (calls_of (main args env)) = [(filter_matcher, never)] /\
       result_of (main args env) =
         result_of (main_input args env (Session_init filter_matcher never))).
Proof.
  intros Hg Hh.
  destruct (main_runs args env Hg Hh)
    as (options & fc & fm & sc & sm & Hf & Hs & Hcalls & Hres & Hbefore).
  pose proof (main_input_constructs_nothing args env (Session_init fm sm)) as Hin.
  unfold constructs_nothing in Hin.
  split.
  - intros query e Hq Hne Hparse.
    rewrite main_filter_matcher_cases, Hq, (truthy_nonempty _ Hne), Hparse in Hf.
    injection Hf as <- <-.
    exists (options ++ [OutputError e] ++ sc ++ [ProtocolLoadAll]), sm.
    split; [exact Hcalls|]. split; [|split].
    + apply in_or_app. right. left. reflexivity.
    + rewrite Hcalls, constructed_app, Hbefore. simpl. rewrite Hin. reflexivity.
    + exact Hres.
  - intros query e Hq Hne Hparse.
    rewrite main_stop_matcher_cases, Hq, (truthy_nonempty _ Hne), Hparse in Hs.
    injection Hs as <- <-.
    exists (options ++ fc ++ [OutputError e] ++ [ProtocolLoadAll]), fm.
    split; [exact Hcalls|]. split; [|split].
    + apply in_or_app. right. apply in_or_app. right. left. reflexivity.
    + rewrite Hcalls, constructed_app, Hbefore. simpl. rewrite Hin. reflexivity.
    + exact Hres.
Qed.

(** C10.  With the messages on standard input (no [--load], outside gdb) and
    a break query that parses, [main] constructs the session with the parsed
    and simplified break matcher as its stop matcher, and only afterwards
    warns that the stop matcher is ignored, before driving that same
    session from standard input. *)
Theorem stdin_break_matcher_warned_but_in_force
  (args : Args) (env : Environ) (query : string) (parsed : Matcher) :
  gdb args = false -> matcher_help args = false ->
  check_gdb env = false -> path args = None ->
  b args = Some query -> query <> "" -> parse query = inr parsed ->
  exists before filter_matcher,
    calls_of (main args env) =
      before ++ SessionNew filter_matcher (simplify parsed)
        :: OutputWarn "Ignoring stop matcher when stdin is used for messages"
        :: calls_of (piped_input_main
                       (Session_init filter_matcher (simplify parsed)) env) /\
    constructed (calls_of (main args env)) =
      [(filter_matcher, simplify parsed)].
Proof.
  intros Hg Hh Hgdb Hpath Hq Hne Hparse.
  destruct (main_runs args env Hg Hh)
    as (options & fc & fm & sc & sm & Hf & Hs & Hcalls & Hres & Hbefore).
  pose proof (main_input_constructs_nothing args env (Session_init fm sm)) as Hin.
  unfold constructs_nothing in Hin.
  rewrite main_stop_matcher_cases, Hq, (truthy_nonempty _ Hne), Hparse in Hs.
  injection Hs as <- <-.
  exists (options ++ fc ++
          [OutputLog ("Break matcher: " ++ str (simplify parsed))]
          ++ [ProtocolLoadAll]), fm.
  assert (Hinput : forall session : S,
            calls_of (main_input args env session) =
            OutputWarn "Ignoring stop matcher when stdin is used for messages"
              :: calls_of (piped_input_main session env)).
  { intros session. unfold main_input.
    rewrite Hgdb, Hpath, Hq, (truthy_nonempty _ Hne).
    cbn [truthy]. unfold output_warn, call, ret, bind, calls_of.
    destruct (piped_input_main session env) as [calls r].
    destruct r; cbn; rewrite ?app_nil_r; reflexivity. }
  split.
  - rewrite Hcalls, Hinput. reflexivity.
  - rewrite Hcalls, constructed_app, Hbefore. simpl. rewrite Hin. reflexivity.
Qed.

(** C8.  When the file named by [--load] does not exist, [file_input_main]
    logs that it opens the file, fails to open it, reports
    [<path> not found] through the session's output and returns normally
    with the session untouched; and [main], called with such a path,
    returns normally too. *)
Theorem missing_file_is_reported_and_not_fatal
  (session : S) (file_path : string) (env : Environ) :
  fs_open env file_path = NoSuchFile ->
  file_input_main session file_path env =
    ([OutputLog ("Opening " ++ file_path); Open file_path NoSuchFile;
      OutputError (file_path ++ " not found")],
     Ok session) /\
  (forall args,
     gdb args = false -> matcher_help args = false -> check_gdb env = false ->
     path args = Some file_path -> file_path <> "" ->
     result_of (main args env) = Ok tt /\
     In (OutputError (file_path ++ " not found")) (calls_of (main args env))).
Proof.
  intros Hmissing.
  assert (Hfile : forall session' : S,
            file_input_main session' file_path env =
            ([OutputLog ("Opening " ++ file_path); Open file_path NoSuchFile;
              OutputError (file_path ++ " not found")], Ok session')).
  { intros session'. unfold file_input_main, builtin_open.
    rewrite Hmissing. reflexivity. }
  split; [apply Hfile|].
  intros args Hg Hh Hgdb Hpath Hne.
  destruct (main_runs args env Hg Hh)
    as (options & fc & fm & sc & sm & _ & _ & Hcalls & Hres & _).
  assert (Hinput : main_input args env (Session_init fm sm) =
            ([OutputLog ("Opening " ++ file_path); Open file_path NoSuchFile;
              OutputError (file_path ++ " not found")], Ok tt)).
  { unfold main_input. rewrite Hgdb, Hpath, (truthy_nonempty _ Hne), Hfile.
    reflexivity. }
  rewrite Hres, Hcalls, Hinput. split; [reflexivity|].
  apply in_or_app. right. right. right. right. left. reflexivity.
Qed.

End MainClaims.

(** ** Concrete runs *)

Local Open Scope Z_scope.

(** The scenario of C4 against the modelled session: the calls, and the
    role the session ends up holding for connection 1. *)
Example scenario_calls :
  calls_of (run_parse_messages scenario_trace fresh_session false []) =
  [OutputLog "Parsing messages"; SessionOpen 1 (Some false) 0;
   SessionMessage 1 get_registry_sent; SessionClose 1 0; OutputLog "Done"].
Proof. reflexivity. Qed.

Example scenario_session_role :
  match result_of (run_parse_messages scenario_trace fresh_session false []) with
  | Ok (session, _) => session_role session 1%Z
  | Raise _ => None
  end = Some Client.
Proof. reflexivity. Qed.

(** The driver opens connection 1 with no hint at its [sync]; the session
    takes the role from the [get_registry] that follows. *)
Example late_registry_session_role :
  opened (calls_of (run_parse_messages late_registry_trace fresh_session false []))
    = [(1%Z, None, 0%Z)] /\
  match result_of (run_parse_messages late_registry_trace fresh_session false []) with
  | Ok (session, _) => session_role session 1%Z
  | Raise _ => None
  end = Some Client.
Proof. split; reflexivity. Qed.

(** A session stopped by the first record still receives the second one
    before anything asks it whether it is stopped. *)
Example stopped_session_still_fed :
  calls_of (run_parse_messages [(1%Z, sync_sent 0%Z); (1%Z, sync_sent 1%Z)]
              stop_at_sync true ["quit"]) =
  [OutputLog "Parsing messages"; SessionOpen 1 None 0;
   SessionMessage 1 (sync_sent 0); SessionMessage 1 (sync_sent 1);
   SessionClose 1 1;
   SessionStopped true; SessionQuit false; Input prompt (Some "quit");
   SessionCommand "quit"; SessionStopped false; OutputLog "Done"].
Proof. reflexivity. Qed.

(** An empty [-f] is not parsed at all: nothing is reported and the filter
    matcher is [always]. *)
Example empty_filter_is_not_parsed :
  calls_of (main_filter_matcher (matcher := query_module)
              {| matcher_help := false; verbose := false; path := None;
                 supress := false; color_flag := false; no_color := false;
                 f := Some ""; b := None; gdb := false |}) = [] /\
  result_of (main_filter_matcher (matcher := query_module)
              {| matcher_help := false; verbose := false; path := None;
                 supress := false; color_flag := false; no_color := false;
                 f := Some ""; b := None; gdb := false |}) = Ok QAlways.
Proof. split; reflexivity. Qed.

(** *** Witnesses *)

Lemma rejected_query_witness :
  (exists before stop_matcher,
     calls_of (run_main [] rejected_queries_args plain_env) =
       before ++ SessionNew QAlways stop_matcher
         :: calls_of (@main_input Query (SpecSession Query) query_session
                        (fixed_imports []) rejected_queries_args plain_env
                        (spec_init QAlways stop_matcher)) /\
     In (OutputError "Unbalanced query: (wl_surface") before /\
     constructed (calls_of (run_main [] rejected_queries_args plain_env)) =
       [(QAlways, stop_matcher)] /\
     result_of (run_main [] rejected_queries_args plain_env) =
       result_of (@main_input Query (SpecSession Query) query_session
                    (fixed_imports []) rejected_queries_args plain_env
                    (spec_init QAlways stop_matcher))) /\
  (exists before filter_matcher,
     calls_of (run_main [] rejected_queries_args plain_env) =
       before ++ SessionNew filter_matcher QNever
         :: calls_of (@main_input Query (SpecSession Query) query_session
                        (fixed_imports []) rejected_queries_args plain_env
                        (spec_init filter_matcher QNever)) /\
     In (OutputError "Unbalanced query: (wl_pointer") before /\
     constructed (calls_of (run_main [] rejected_queries_args plain_env)) =
       [(filter_matcher, QNever)] /\
     result_of (run_main [] rejected_queries_args plain_env) =
       result_of (@main_input Query (SpecSession Query) query_session
                    (fixed_imports []) rejected_queries_args plain_env
                    (spec_init filter_matcher QNever))).
Proof.
  destruct (@rejected_query_is_reported_and_default_kept
              Query (SpecSession Query) query_module query_session
              (fixed_imports []) rejected_queries_args plain_env
              eq_refl eq_refl) as [Hfilter Hbreak].
  split.
  - apply (Hfilter "(wl_surface" "Unbalanced query: (wl_surface");
      [reflexivity | discriminate | reflexivity].
  - apply (Hbreak "(wl_pointer" "Unbalanced query: (wl_pointer");
      [reflexivity | discriminate | reflexivity].
Defined.

Lemma get_registry_scenario_witness :
  parse_file (Imports := @fixed_imports (SpecSession Query) scenario_trace) [] =
    [(1%Z, get_registry_sent)] /\
  opened (calls_of (run_parse_messages scenario_trace fresh_session true [])) =
    [(1%Z, Some false, 0%Z)] /\
  driver_role
    (opened (calls_of (run_parse_messages scenario_trace fresh_session true [])))
    1%Z = Some Client.
Proof.
  split.
  - reflexivity.
  - apply (@get_registry_scenario_opens_client
             Query (SpecSession Query) query_session
             (fixed_imports scenario_trace) fresh_session [] true []).
    reflexivity.
Defined.

Lemma quit_checked_only_after_the_trace_witness :
  let calls := calls_of (run_parse_messages two_connection_trace stop_at_sync
                           true ["quit"]) in
  delivered calls = two_connection_trace /\
  (delivered
     [@OutputLog Query "Parsing messages"; SessionOpen 1 (Some false) 3;
      SessionMessage 1 (get_registry_at 3); SessionOpen 2 None 4;
      SessionMessage 2 (sync_sent 4); SessionMessage 1 (sync_sent 7);
      SessionClose 1 7; SessionClose 2 7] = two_connection_trace /\
   closed
     [@OutputLog Query "Parsing messages"; SessionOpen 1 (Some false) 3;
      SessionMessage 1 (get_registry_at 3); SessionOpen 2 None 4;
      SessionMessage 2 (sync_sent 4); SessionMessage 1 (sync_sent 7);
      SessionClose 1 7; SessionClose 2 7] = closed calls /\
   delivered
     [@SessionQuit Query false; Input prompt (Some "quit"); SessionCommand "quit";
      SessionStopped false; OutputLog "Done"] = [] /\
   closed
     [@SessionQuit Query false; Input prompt (Some "quit"); SessionCommand "quit";
      SessionStopped false; OutputLog "Done"] = []) /\
  queries (calls_of (run_parse_messages two_connection_trace stop_at_sync
                       false ["quit"])) = [] /\
  calls_of (@parse_messages Query (list bool) scripted_session
              (fixed_imports scenario_trace) [true; true] [] true ["help"]) =
    [OutputLog "Parsing messages"; SessionOpen 1 (Some false) 0;
     SessionMessage 1 get_registry_sent; SessionClose 1 0;
     SessionStopped true; SessionQuit true; OutputLog "Done"].
Proof.
  intros calls.
  destruct (@quit_checked_only_after_the_trace
              Query (SpecSession Query) query_session
              (fixed_imports two_connection_trace) stop_at_sync [] true ["quit"])
    as (Hall & Hquery & _ & _).
  destruct (@quit_checked_only_after_the_trace
              Query (SpecSession Query) query_session
              (fixed_imports two_connection_trace) stop_at_sync [] false ["quit"])
    as (_ & _ & Hnone & _).
  destruct (@quit_checked_only_after_the_trace
              Query (list bool) scripted_session
              (fixed_imports scenario_trace) [true; true] [] true ["help"])
    as (_ & _ & _ & Hquit).
  split; [exact Hall|]. split; [|split].
  - apply (Hquery _ (SessionStopped true) _); reflexivity.
  - apply Hnone. reflexivity.
  - specialize (Hquit [OutputLog "Parsing messages"; SessionOpen 1 (Some false) 0;
                       SessionMessage 1 get_registry_sent; SessionClose 1 0;
                       SessionStopped true] [OutputLog "Done"] eq_refl).
    reflexivity.
Defined.

Lemma command_guard_witness :
  (exists pre',
     [@SessionStopped Query true; SessionQuit false;
      Input prompt (Some "continue")] =
     pre' ++ [SessionStopped true; SessionQuit false;
              Input prompt (Some "continue")]) /\
  (exists pre',
     [@OutputLog Query "Parsing messages"; SessionOpen 1 None 0;
      SessionMessage 1 (sync_sent 0); SessionClose 1 0;
      SessionStopped true; SessionQuit false; Input prompt (Some "continue")] =
     pre' ++ [SessionStopped true; SessionQuit false;
              Input prompt (Some "continue")]).
Proof.
  split.
  - apply (proj1 (@command_only_while_stopped_and_not_quit
                    Query (SpecSession Query) query_session
                    (fixed_imports []) stopped_session [] true ["continue"])
             _ "continue" [SessionStopped false]).
    reflexivity.
  - apply (proj2 (@command_only_while_stopped_and_not_quit
                    Query (SpecSession Query) query_session
                    (fixed_imports [(1%Z, sync_sent 0%Z)]) stop_at_sync []
                    true ["continue"])
             _ "continue" [SessionStopped false; OutputLog "Done"]).
    reflexivity.
Defined.

Lemma defaults_witness :
  gdb plain_args = false /\ matcher_help plain_args = false /\
  f plain_args = None /\ b plain_args = None /\
  constructed (calls_of (run_main scenario_trace plain_args plain_env)) =
    [(QAlways, QNever)].
Proof.
  split; [reflexivity|]. split; [reflexivity|].
  split; [reflexivity|]. split; [reflexivity|].
  destruct (@defaults_are_always_and_never
              Query (SpecSession Query) query_module query_session
              (fixed_imports scenario_trace) plain_args plain_env
              eq_refl eq_refl)
    as (filter_matcher & stop_matcher & Hc & Hf & Hs).
  rewrite (Hf eq_refl), (Hs eq_refl) in Hc. exact Hc.
Defined.

Lemma missing_file_witness :
  fs_open plain_env "trace.log" = NoSuchFile /\
  @file_input_main Query (SpecSession Query) query_session
    (fixed_imports scenario_trace) fresh_session "trace.log" plain_env =
    ([OutputLog "Opening trace.log"; Open "trace.log" NoSuchFile;
      OutputError "trace.log not found"], Ok fresh_session) /\
  result_of (run_main scenario_trace load_missing_args plain_env) = Ok tt /\
  In (OutputError "trace.log not found")
     (calls_of (run_main scenario_trace load_missing_args plain_env)).
Proof.
  split; [reflexivity|].
  destruct (@missing_file_is_reported_and_not_fatal
              Query (SpecSession Query) query_module query_session
              (fixed_imports scenario_trace) fresh_session "trace.log" plain_env
              eq_refl) as [Hfile Hmain].
  split; [exact Hfile|].
  apply (Hmain load_missing_args);
    [reflexivity | reflexivity | reflexivity | reflexivity | discriminate].
Defined.

Lemma connection_lifecycle_witness :
  let calls := calls_of (run_parse_messages two_connection_trace fresh_session
                           false []) in
  count_occ Z.eq_dec (opened_ids calls) 1%Z = 1%nat /\
  count_occ Z.eq_dec (opened_ids calls) 2%Z = 1%nat /\
  count_occ Z.eq_dec (opened_ids calls) 3%Z = 0%nat /\
  (exists is_server time,
     In (SessionOpen 2%Z is_server time)
        [@OutputLog Query "Parsing messages"; SessionOpen 1 (Some false) 3;
         SessionMessage 1 (get_registry_at 3); SessionOpen 2 None 4]) /\
  closed_ids calls = opened_ids calls /\
  7%Z = last_timestamp two_connection_trace /\
  (delivered
     [@OutputLog Query "Parsing messages"; SessionOpen 1 (Some false) 3;
      SessionMessage 1 (get_registry_at 3); SessionOpen 2 None 4;
      SessionMessage 2 (sync_sent 4); SessionMessage 1 (sync_sent 7);
      SessionClose 1 7] = two_connection_trace /\
   delivered [@OutputLog Query "Done"] = []).
Proof.
  intros calls.
  destruct (@connections_opened_once_and_closed_once_at_last_time
              Query (SpecSession Query) query_session
              (fixed_imports two_connection_trace) fresh_session [] false [])
    as (Hopen & Hfirst & Hsame & _ & Htime & Hafter).
  split; [exact (Hopen 1%Z)|]. split; [exact (Hopen 2%Z)|].
  split; [exact (Hopen 3%Z)|]. split; [|split; [|split]].
  - apply (Hfirst _ 2%Z (sync_sent 4)
             [SessionMessage 1 (sync_sent 7); SessionClose 1 7;
              SessionClose 2 7; OutputLog "Done"]).
    reflexivity.
  - exact Hsame.
  - apply (Htime 2%Z 7%Z). simpl. tauto.
  - apply (Hafter _ 2%Z 7%Z [OutputLog "Done"]). reflexivity.
Defined.

Lemma stdin_break_matcher_witness :
  check_gdb plain_env = false /\ path break_on_stdin_args = None /\
  b break_on_stdin_args = Some "destroy" /\
  parse (MatcherModule := query_module) "destroy" = inr (QName "destroy") /\
  exists before filter_matcher,
    calls_of (run_main scenario_trace break_on_stdin_args plain_env) =
      before ++ SessionNew filter_matcher (QName "destroy")
        :: OutputWarn "Ignoring stop matcher when stdin is used for messages"
        :: calls_of (@piped_input_main Query (SpecSession Query) query_session
                       (fixed_imports scenario_trace)
                       (spec_init filter_matcher (QName "destroy")) plain_env) /\
    constructed (calls_of (run_main scenario_trace break_on_stdin_args plain_env)) =
      [(filter_matcher, QName "destroy")].
Proof.
  split; [reflexivity|]. split; [reflexivity|]. split; [reflexivity|].
  split; [reflexivity|].
  apply (@stdin_break_matcher_warned_but_in_force
           Query (SpecSession Query) query_module query_session
           (fixed_imports scenario_trace) break_on_stdin_args plain_env
           "destroy" (QName "destroy"));
    [reflexivity | reflexivity | reflexivity | reflexivity | reflexivity
    | discriminate | reflexivity].
Defined.

(** *** Counterexamples *)

(** C5 as worded fails: two records are delivered back to back, with no
    [quit()] call between them, even though the first one has stopped the
    session. *)
Lemma quit_not_checked_between_records :
  ~ quit_checked_between_records
      (calls_of (run_parse_messages [(1%Z, sync_sent 0%Z); (1%Z, sync_sent 1%Z)]
                   stop_at_sync true ["quit"])).
Proof.
  intros H.
  destruct (H [OutputLog "Parsing messages"; SessionOpen 1 None 0]
              1%Z (sync_sent 0) [] 1%Z (sync_sent 1)
              [SessionClose 1 1;
               SessionStopped true; SessionQuit false;
               Input prompt (Some "quit"); SessionCommand "quit";
               SessionStopped false; OutputLog "Done"]
              eq_refl) as (answer & []).
Qed.

(** * Further properties of the driver *)

(** ** The shell, line by line *)

Section ShellInput.

Context {Matcher S : Type}.
Context {matcher : MatcherModule Matcher}.
Context {wl_session : Session Matcher S}.
Context {imports : Imports S}.

(** X1.  The shell passes on to [Session.command] exactly the lines it
    reads, in order and unchanged.  When it returns, the commands issued
    followed by the input left unread are the input it was given; when it
    fails, it fails with [EOFError] and every line of the input has been
    issued as a command. *)
Theorem shell_commands_are_the_lines_read (session : S) (tty : File) :
  let calls := calls_of (interactive_shell session tty) in
  commands calls = lines_read calls /\
  match result_of (interactive_shell session tty) with
  | Ok (_, unread) => commands calls ++ unread = tty
  | Raise e => e = EOFError /\ commands calls = tty
  end.
Proof.
  revert session. induction tty as [|cmd tty IH]; intros session.
  - cbn [interactive_shell]. unfold session_stopped, session_quit, call, ret, bind.
    destruct (stopped session) as [[|] s1]; cbn.
    + destruct (quit s1) as [[|] s2]; cbn; repeat split; reflexivity.
    + repeat split; reflexivity.
  - cbn [interactive_shell].
    unfold session_stopped, session_quit, session_command, call, ret, bind.
    destruct (stopped session) as [[|] s1]; cbn.
    + destruct (quit s1) as [[|] s2]; cbn.
      * repeat split; reflexivity.
      * specialize (IH (command s2 cmd)). unfold calls_of, result_of in *.
        destruct (interactive_shell (command s2 cmd) tty) as [calls r].
        cbn in *. destruct IH as (Hlines & Hres). split.
        -- f_equal. exact Hlines.
        -- destruct r as [[s3 unread]|e].
           ++ f_equal. exact Hres.
           ++ destruct Hres as (-> & ->). split; reflexivity.
    + repeat split; reflexivity.
Qed.

Lemma shell_calls_end (calls : list (Call Matcher)) returned :
  shell_calls calls returned ->
  exists pre,
    if returned
    then calls = pre ++ [SessionStopped false] \/
         calls = pre ++ [SessionStopped true; SessionQuit true]
    else calls = pre ++ [SessionStopped true; SessionQuit false;
                         Input prompt None].
Proof.
  induction 1 as [| | |cmd rest returned Hrest (pre & IH)].
  - exists []. left. reflexivity.
  - exists []. right. reflexivity.
  - exists []. reflexivity.
  - exists (SessionStopped true :: SessionQuit false
              :: Input prompt (Some cmd) :: SessionCommand cmd :: pre).
    destruct returned.
    + destruct IH as [-> | ->]; [left | right]; reflexivity.
    + rewrite IH. reflexivity.
Qed.

(** X2.  The shell returns only when [stopped()] has just answered false or
    [quit()] has just answered true; its only failure is the prompt hitting
    the end of the input while the session is still stopped and not quit. *)
Theorem shell_ends_on_an_answer_or_at_end_of_input (session : S) (tty : File) :
  let calls := calls_of (interactive_shell session tty) in
  match result_of (interactive_shell session tty) with
  | Ok _ =>
      exists pre,
        calls = pre ++ [SessionStopped false] \/
        calls = pre ++ [SessionStopped true; SessionQuit true]
  | Raise e =>
      e = EOFError /\
      exists pre,
        calls = pre ++ [SessionStopped true; SessionQuit false;
                        Input prompt None]
  end.
Proof.
  intros calls. subst calls.
  destruct (interactive_shell_runs tty session) as (returned & Hcalls & Hres).
  destruct (shell_calls_end _ _ Hcalls) as (pre & Hend).
  destruct returned.
  - destruct Hres as (s' & tty' & ->). exists pre. exact Hend.
  - rewrite Hres. split; [reflexivity|]. exists pre. exact Hend.
Qed.

End ShellInput.

(** ** More on [parse_messages] *)

Section ParseMessagesMore.

Context {Matcher S : Type}.
Context {matcher : MatcherModule Matcher}.
Context {wl_session : Session Matcher S}.
Context {imports : Imports S}.

(** [parse_messages] is its two loops, then the shell if allowed, then the
    closing log line if the shell returned. *)
Lemma parse_messages_unfold (session : S) input_file allow_shell tty :
  exists s2 : S,
    parse_messages session input_file allow_shell tty =
    match (if allow_shell then interactive_shell s2 tty else ret (s2, tty)) with
    | (shell, Ok st) =>
        (front_calls (parse_file input_file) ++ shell ++ [OutputLog "Done"], Ok st)
    | (shell, Raise e) =>
        (front_calls (parse_file input_file) ++ shell, Raise e)
    end.
Proof.
  unfold parse_messages, front_calls.
  destruct (for_loop_runs (parse_file input_file) session [] 0%Z)
    as (s1 & known & Hloop & Hkeys).
  cbn [dict_keys map app] in Hloop, Hkeys.
  destruct (close_connections_runs (dict_keys known) s1
              (last_timestamp (parse_file input_file))) as (s2 & Hclose).
  unfold last_timestamp in *.
  unfold output_log, call, ret, bind at 1 2. rewrite Hloop. cbn [app].
  unfold bind at 1. cbn iota beta. rewrite Hclose. rewrite Hkeys.
  exists s2. destruct allow_shell.
  - destruct (interactive_shell s2 tty) as [shell [[s3 tty3]|e]]; cbn.
    + rewrite <- !app_assoc. reflexivity.
    + rewrite <- !app_assoc. reflexivity.
  - cbn. rewrite <- !app_assoc. reflexivity.
Qed.

Lemma no_log_in_loop_calls trace : forall seen s,
  ~ In (OutputLog s) (@loop_calls Matcher seen trace).
Proof.
  induction trace as [|[c0 m0] rest IH]; intros seen s; simpl.
  - intros [].
  - destruct (existsb (Z.eqb c0) seen); simpl; intros H.
    + destruct H as [H | H]; [discriminate H | exact (IH _ _ H)].
    + destruct H as [H | [H | H]]; [discriminate H | discriminate H |].
      exact (IH _ _ H).
Qed.

Lemma no_log_in_close_calls conn_ids time s :
  ~ In (OutputLog s) (@close_calls Matcher conn_ids time).
Proof.
  unfold close_calls. induction conn_ids as [|c rest IH]; simpl.
  - intros [].
  - intros [H | H]; [discriminate H | exact (IH H)].
Qed.

Lemma no_log_in_shell_calls (calls : list (Call Matcher)) returned s :
  shell_calls calls returned -> ~ In (OutputLog s) calls.
Proof.
  induction 1 as [| | |cmd rest returned Hrest IH]; simpl; intros H.
  - destruct H as [H | []]. discriminate H.
  - destruct H as [H | [H | []]]; discriminate H.
  - destruct H as [H | [H | [H | []]]]; discriminate H.
  - destruct H as [H | [H | [H | [H | H]]]]; try discriminate H.
    exact (IH H).
Qed.

(** X3.  [parse_messages] starts by logging [Parsing messages].  It cannot
    fail unless the shell is allowed, and then only with [EOFError]; it logs
    [Done], as its last call, exactly when it returns. *)
Theorem parse_messages_fails_only_in_the_shell
  (session : S) (input_file : File) (allow_shell : bool) (tty : File) :
  let calls := calls_of (parse_messages session input_file allow_shell tty) in
  (exists rest, calls = OutputLog "Parsing messages" :: rest) /\
  match result_of (parse_messages session input_file allow_shell tty) with
  | Ok _ =>
      exists pre, calls = pre ++ [OutputLog "Done"] /\
                  ~ In (OutputLog "Done") pre
  | Raise e =>
      e = EOFError /\ allow_shell = true /\ ~ In (OutputLog "Done") calls
  end.
Proof.
  intros calls. subst calls.
  destruct (parse_messages_unfold session input_file allow_shell tty)
    as (s2 & Heq).
  rewrite Heq. clear Heq.
  assert (Hfront : forall shell : list (Call Matcher),
            (forall s, ~ In (OutputLog s) shell) ->
            ~ In (OutputLog "Done") (front_calls (parse_file input_file) ++ shell)).
  { intros shell Hshell Hin. apply in_app_or in Hin. destruct Hin as [Hin | Hin].
    - unfold front_calls in Hin. destruct Hin as [Hin | Hin]; [discriminate Hin|].
      apply in_app_or in Hin. destruct Hin as [Hin | Hin].
      + exact (no_log_in_loop_calls _ _ _ Hin).
      + exact (no_log_in_close_calls _ _ _ Hin).
    - exact (Hshell _ Hin). }
  destruct allow_shell.
  - destruct (interactive_shell_runs tty s2) as (returned & Hcalls & Hres).
    unfold calls_of, result_of in *.
    destruct (interactive_shell s2 tty) as [shell r]. cbn in Hcalls, Hres.
    assert (Hshell : forall s, ~ In (OutputLog s) shell)
      by (intros s; eapply no_log_in_shell_calls; eassumption).
    destruct returned.
    + destruct Hres as (s3 & tty3 & ->). cbn. split.
      * eexists. reflexivity.
      * exists (front_calls (parse_file input_file) ++ shell). split.
        -- unfold front_calls. cbn. rewrite <- !app_assoc. reflexivity.
        -- apply Hfront. exact Hshell.
    + rewrite Hres. cbn. split.
      * eexists. reflexivity.
      * split; [reflexivity|]. split; [reflexivity|].
        apply (Hfront shell Hshell).
  - cbn. split.
    + eexists. reflexivity.
    + exists (front_calls (parse_file input_file)). split.
      * unfold front_calls. cbn. reflexivity.
      * rewrite <- (app_nil_r (front_calls _)). apply Hfront. intros s [].
Qed.

(** In the loop, an opening call is for a connection not met before, and
    the next call delivers the record it was computed from. *)
Lemma loop_calls_open_then_deliver trace :
  forall seen pre conn_id is_server time post,
    @loop_calls Matcher seen trace =
      pre ++ SessionOpen conn_id is_server time :: post ->
    ~ In conn_id seen /\
    ~ In conn_id (map fst (delivered pre)) /\
    exists msg post',
      post = SessionMessage conn_id msg :: post' /\
      is_server = opening_hint msg /\ time = timestamp msg.
Proof.
  induction trace as [|[c0 m0] rest IH];
    intros seen pre conn_id is_server time post H; simpl in H.
  - destruct pre; discriminate H.
  - destruct (existsb (Z.eqb c0) seen) eqn:Hseen.
    + apply existsb_eqb_In in Hseen.
      destruct pre as [|p pre]; simpl in H; [discriminate H|].
      injection H as <- H.
      destruct (IH _ _ _ _ _ _ H) as (Hn & Hd & Hnext).
      split; [exact Hn|]. split; [|exact Hnext].
      simpl. intros [<- | Hin]; [exact (Hn Hseen) | exact (Hd Hin)].
    + apply existsb_eqb_not_In in Hseen.
      destruct pre as [|p pre]; simpl in H.
      * injection H as <- <- <- <-. split; [exact Hseen|]. split; [intros []|].
        eexists _, _. repeat split.
      * injection H as <- H. destruct pre as [|p' pre]; simpl in H;
          [discriminate H|].
        injection H as <- H.
        destruct (IH _ _ _ _ _ _ H) as (Hn & Hd & Hnext).
        split; [|split; [|exact Hnext]].
        -- intros Hin. apply Hn. apply in_or_app. left. exact Hin.
        -- simpl. intros [<- | Hin]; [|exact (Hd Hin)].
           apply Hn. apply in_or_app. right. left. reflexivity.
Qed.

(** X4.  A connection is opened at its first record: every
    [open_connection] call is followed at once by the delivery of a record
    on the same connection, its time is that record's timestamp, its
    [is_server] hint is computed from that record alone, and no record of
    that connection was delivered before. *)
Theorem connection_opened_at_its_first_record
  (session : S) (input_file : File) (allow_shell : bool) (tty : File)
  (pre post : list (Call Matcher)) (conn_id : ConnId)
  (is_server : option bool) (time : Time) :
  calls_of (parse_messages session input_file allow_shell tty) =
    pre ++ SessionOpen conn_id is_server time :: post ->
  ~ In conn_id (map fst (delivered pre)) /\
  exists msg post',
    post = SessionMessage conn_id msg :: post' /\
    time = timestamp msg /\
    is_server = (if String.eqb (name msg) "get_registry"
                 then Some (negb (sent msg)) else None).
Proof.
  intros H.
  destruct (parse_messages_calls session input_file allow_shell tty)
    as (tail & Heq & Htail).
  rewrite Heq in H.
  destruct pre as [|p pre]; [discriminate H|]. injection H as <- H.
  apply split_before in H.
  - destruct H as (mid & Hloop & ->).
    destruct (loop_calls_open_then_deliver _ _ _ _ _ _ _ Hloop)
      as (_ & Hd & msg & post' & -> & -> & ->).
    split; [exact Hd|].
    exists msg, (post' ++ close_calls
                   (map fst (new_connections [] (parse_file input_file)))
                   (last_timestamp (parse_file input_file)) ++ tail).
    repeat split.
  - intros Hin. apply in_app_or in Hin. destruct Hin as [Hin | Hin].
    + unfold close_calls in Hin. apply in_map_iff in Hin.
      destruct Hin as (c & Hc & _). discriminate Hc.
    + revert Hin. apply not_in_shell_part; [|reflexivity].
      eapply tail_calls_are_shell_calls; eassumption.
Qed.

(** Filtering the known ids out of the first appearances. *)
Lemma filter_remove_seen (l seen : list ConnId) (c : ConnId) :
  filter (fun k => negb (existsb (Z.eqb k) (seen ++ [c]))) l =
  filter (fun k => negb (existsb (Z.eqb k) seen)) (remove Z.eq_dec c l).
Proof.
  induction l as [|x l IH]; simpl; [reflexivity|].
  rewrite existsb_app. simpl. rewrite orb_false_r.
  destruct (Z.eq_dec c x) as [-> | Hne].
  - rewrite Z.eqb_refl, orb_true_r. simpl. exact IH.
  - assert (Hx : Z.eqb x c = false) by (apply Z.eqb_neq; congruence).
    rewrite Hx, orb_false_r. simpl. rewrite IH. reflexivity.
Qed.

Lemma filter_remove_known (l seen : list ConnId) (c : ConnId) :
  In c seen ->
  filter (fun k => negb (existsb (Z.eqb k) seen)) (remove Z.eq_dec c l) =
  filter (fun k => negb (existsb (Z.eqb k) seen)) l.
Proof.
  intros Hc. induction l as [|x l IH]; simpl; [reflexivity|].
  destruct (Z.eq_dec c x) as [-> | Hne].
  - apply existsb_eqb_In in Hc. rewrite Hc. simpl. exact IH.
  - simpl. rewrite IH. reflexivity.
Qed.

Lemma new_connections_dedup trace : forall seen,
  map fst (new_connections seen trace) =
  filter (fun k => negb (existsb (Z.eqb k) seen)) (dedup (map fst trace)).
Proof.
  induction trace as [|[c0 m0] rest IH]; intros seen; simpl.
  - reflexivity.
  - destruct (existsb (Z.eqb c0) seen) eqn:Hseen; simpl.
    + rewrite IH. symmetry. apply filter_remove_known.
      apply existsb_eqb_In. exact Hseen.
    + rewrite IH. f_equal. apply filter_remove_seen.
Qed.

(** X5.  Connections are opened, and at the end closed, in the order in
    which they first appear in the trace. *)
Theorem connections_opened_and_closed_in_order_of_first_appearance
  (session : S) (input_file : File) (allow_shell : bool) (tty : File) :
  let calls := calls_of (parse_messages session input_file allow_shell tty) in
  opened_ids calls = dedup (map fst (parse_file input_file)) /\
  closed_ids calls = dedup (map fst (parse_file input_file)).
Proof.
  intros calls. subst calls.
  rewrite opened_ids_parse_messages, closed_ids_parse_messages.
  rewrite new_connections_dedup. simpl.
  assert (Hall : forall l : list ConnId, filter (fun _ => true) l = l).
  { induction l as [|x l IHl]; simpl; [reflexivity | rewrite IHl; reflexivity]. }
  rewrite Hall. split; reflexivity.
Qed.

End ParseMessagesMore.

(** ** Composing computations *)

Section CallsAll.

Context {Matcher : Type}.

Lemma calls_all_bind {A B} test (m : M Matcher A) (k : A -> M Matcher B) :
  calls_all test m -> (forall a, calls_all test (k a)) ->
  calls_all test (bind m k).
Proof.
  unfold calls_all, calls_of, bind. intros Hm Hk.
  destruct m as [calls [a|e]]; simpl in *.
  - specialize (Hk a). destruct (k a) as [calls' r]. simpl in *.
    apply Forall_app. split; assumption.
  - exact Hm.
Qed.

Lemma calls_all_try {A} test (body handler : M Matcher A) catches :
  calls_all test body -> calls_all test handler ->
  calls_all test (try_except body catches handler).
Proof.
  unfold calls_all, calls_of, try_except. intros Hb Hh.
  destruct body as [calls [a|e]]; simpl in *.
  - exact Hb.
  - destruct (catches e); simpl.
    + destruct handler as [calls' r]. simpl in *.
      apply Forall_app. split; assumption.
    + exact Hb.
Qed.

Lemma calls_all_call test (c : Call Matcher) :
  test c = true -> calls_all test (call c).
Proof. intros H. repeat constructor. exact H. Qed.

Lemma calls_all_ret {A} test (a : A) : calls_all test (@ret Matcher A a).
Proof. constructor. Qed.

Lemma calls_all_weaken {A} (test test' : Call Matcher -> bool) (m : M Matcher A) :
  (forall c, test c = true -> test' c = true) ->
  calls_all test m -> calls_all test' m.
Proof.
  unfold calls_all. intros Himp H. eapply Forall_impl; [|exact H].
  exact Himp.
Qed.

Lemma trace_call_extracts (calls : list (Call Matcher)) :
  Forall (fun c => is_trace_call c = true) calls ->
  constructed calls = [] /\ color_settings calls = [] /\
  ~ In FileClose calls /\
  (forall s, ~ In (OutputError s) calls) /\
  (forall p r, ~ In (Open p r) calls).
Proof.
  induction 1 as [|c calls Hc _ (IH1 & IH2 & IH3 & IH4 & IH5)].
  - repeat split; intros; intros [].
  - destruct c; try discriminate Hc; simpl; repeat split; auto;
      intros; intros [Hd | Hin]; try discriminate Hd;
      solve [eapply IH3; eauto | eapply IH4; eauto | eapply IH5; eauto].
Qed.

End CallsAll.

(** ** The two ways into [parse_messages] *)

Section InputMains.

Context {Matcher S : Type}.
Context {matcher : MatcherModule Matcher}.
Context {wl_session : Session Matcher S}.
Context {imports : Imports S}.

Lemma parse_messages_trace_calls (session : S) input_file allow_shell tty :
  calls_all is_trace_call (parse_messages session input_file allow_shell tty).
Proof.
  unfold calls_all.
  destruct (parse_messages_parts session input_file allow_shell tty)
    as (front & tail & -> & Hfront & Htail & _).
  apply Forall_app. split.
  - eapply Forall_impl; [|exact Hfront]. intros c Hc. unfold is_trace_call.
    cbv beta in Hc. rewrite Hc. reflexivity.
  - eapply Forall_impl; [|exact (tail_calls_are_shell_calls _ _ Htail)].
    intros c Hc. unfold is_trace_call. cbv beta in Hc. rewrite Hc.
    apply orb_true_r.
Qed.

Lemma parse_messages_result (session : S) input_file allow_shell tty :
  (exists st, result_of (parse_messages session input_file allow_shell tty) = Ok st) \/
  (allow_shell = true /\
   result_of (parse_messages session input_file allow_shell tty) = Raise EOFError).
Proof.
  destruct (parse_messages_unfold session input_file allow_shell tty)
    as (s2 & ->).
  destruct allow_shell.
  - destruct (interactive_shell_runs tty s2) as (returned & _ & Hres).
    unfold result_of in *.
    destruct (interactive_shell s2 tty) as [shell r]. cbn in Hres.
    destruct returned.
    + destruct Hres as (s3 & tty3 & ->). left. eexists. reflexivity.
    + rewrite Hres. right. split; reflexivity.
  - left. eexists. reflexivity.
Qed.

(** X6.  Reading the trace from standard input never fails and never
    involves the operator: [piped_input_main] returns normally, delivers
    exactly the decoded records of standard input, and makes no call other
    than log lines and [open_connection], [message] and [close_connection];
    in particular it asks no [stopped()] or [quit()], reads no line and
    issues no command. *)
Theorem piped_input_never_fails_and_never_prompts (session : S) (env : Environ) :
  let calls := calls_of (piped_input_main session env) in
  (exists session', result_of (piped_input_main session env) = Ok session') /\
  delivered calls = parse_file (stdin env) /\
  Forall (fun c => is_loop_call c = true) calls /\
  queries calls = [] /\ commands calls = [] /\ lines_read calls = [].
Proof.
  intros calls. subst calls.
  assert (Heq : exists s2 : S,
            piped_input_main session env =
            (OutputLog "Getting input piped from stdin"
               :: front_calls (parse_file (stdin env)) ++ [OutputLog "Done"],
             Ok s2)).
  { unfold piped_input_main.
    destruct (parse_messages_unfold session (stdin env) false []) as (s2 & ->).
    exists s2. unfold output_log, call, ret, bind. cbn.
    rewrite !app_nil_r. reflexivity. }
  destruct Heq as (s2 & ->). unfold calls_of, result_of. cbn [fst snd].
  assert (Hall : Forall (fun c : Call Matcher => is_loop_call c = true)
                   (OutputLog "Getting input piped from stdin"
                      :: front_calls (parse_file (stdin env))
                      ++ [OutputLog "Done"])).
  { constructor; [reflexivity|]. apply Forall_app. split.
    - unfold front_calls. constructor; [reflexivity|]. apply Forall_app. split.
      + apply loop_calls_are_loop_calls.
      + apply close_calls_are_loop_calls.
    - repeat constructor. }
  split; [eexists; reflexivity|]. split; [|split; [exact Hall|]].
  - change (OutputLog "Getting input piped from stdin" :: ?l)
      with ([@OutputLog Matcher "Getting input piped from stdin"] ++ l).
    unfold front_calls.
    change (OutputLog "Parsing messages" :: ?l)
      with ([@OutputLog Matcher "Parsing messages"] ++ l).
    rewrite !delivered_app, delivered_loop_calls, delivered_close_calls.
    simpl. rewrite !app_nil_r. reflexivity.
  - destruct (loop_call_extracts _ Hall) as (Hq & Hc & _).
    split; [exact Hq|]. split; [exact Hc|].
    clear Hq Hc. induction Hall as [|c calls Hc _ IH]; [reflexivity|].
    destruct c; try discriminate Hc; simpl; exact IH.
Qed.

(** X7.  When the file named by [--load] opens, [file_input_main] delivers
    exactly its decoded records and then lets the operator in.  If the shell
    returns, the file is closed, once, as the last call, and the function
    returns; if the operator's input ends while the session is stopped, the
    [EOFError] escapes and the file is never closed. *)
Theorem opened_file_is_closed_only_if_the_shell_returns
  (session : S) (file_path : string) (env : Environ) (input_file : File) :
  fs_open env file_path = Opened input_file ->
  let calls := calls_of (file_input_main session file_path env) in
  delivered calls = parse_file input_file /\
  match result_of (file_input_main session file_path env) with
  | Ok _ => exists pre, calls = pre ++ [FileClose] /\ ~ In FileClose pre
  | Raise e => e = EOFError /\ ~ In FileClose calls
  end.
Proof.
  intros Hopen calls. subst calls.
  pose proof (parse_messages_trace_calls session input_file true (stdin env)) as Hall.
  pose proof (delivered_parse_messages session input_file true (stdin env)) as Hdel.
  pose proof (parse_messages_result session input_file true (stdin env)) as Hres.
  unfold calls_all, calls_of, result_of in *.
  unfold file_input_main, builtin_open. rewrite Hopen.
  unfold output_log, output_error, call, ret, bind, try_except.
  destruct (parse_messages session input_file true (stdin env)) as [calls r].
  cbn [fst snd] in Hall, Hdel, Hres.
  destruct (trace_call_extracts _ Hall) as (_ & _ & Hclose & _).
  destruct Hres as [(st & ->) | (_ & ->)].
  - destruct st as [s' tty']. cbn -[delivered]. split.
    + change (delivered ([OutputLog ("Opening " ++ file_path);
                          Open file_path (Opened input_file)]
                         ++ calls ++ [@FileClose Matcher])
              = parse_file input_file).
      rewrite !delivered_app, Hdel. simpl. rewrite app_nil_r. reflexivity.
    + exists (OutputLog ("Opening " ++ file_path)
                :: Open file_path (Opened input_file) :: calls).
      split; [reflexivity|].
      intros [H | [H | H]]; [discriminate H | discriminate H | exact (Hclose H)].
  - cbn -[delivered]. split; [exact Hdel|]. split; [reflexivity|].
    intros [H | [H | H]]; [discriminate H | discriminate H | exact (Hclose H)].
Qed.

(** X8.  Only a missing file is forgiven: when [open] fails for another
    reason, [file_input_main] reports nothing and lets the error escape
    after the [Opening] log line and the failed [open]. *)
Theorem other_open_errors_escape
  (session : S) (file_path : string) (env : Environ) :
  fs_open env file_path = OtherOSError ->
  file_input_main session file_path env =
    ([OutputLog ("Opening " ++ file_path); Open file_path OtherOSError],
     Raise OSError).
Proof.
  intros Hopen. unfold file_input_main, builtin_open. rewrite Hopen.
  reflexivity.
Qed.

End InputMains.

(** ** More on [main] *)

Section MainMore.

Context {Matcher S : Type}.
Context {matcher : MatcherModule Matcher}.
Context {wl_session : Session Matcher S}.
Context {imports : Imports S}.

Lemma piped_input_main_returns (session : S) env :
  exists session', result_of (piped_input_main session env) = Ok session'.
Proof.
  unfold piped_input_main.
  destruct (parse_messages_unfold session (stdin env) false []) as (s2 & ->).
  exists s2. reflexivity.
Qed.

Lemma main_options_eq args env :
  gdb args = false ->
  @main_options Matcher S imports args env =
    (option_calls args env,
     if matcher_help args then Raise (SystemExit 1) else Ok tt).
Proof.
  intros Hg. unfold main_options, option_calls. rewrite Hg.
  unfold when, output_log, output_warn, call, ret, bind, raise.
  destruct (check_gdb env), (no_color args), (color_flag args), (verbose args),
    (supress args), (matcher_help args); cbn -[rainbow]; reflexivity.
Qed.

Lemma main_unfold args env :
  gdb args = false -> matcher_help args = false ->
  exists filter_calls filter_matcher stop_calls stop_matcher,
    main_filter_matcher args = (filter_calls, Ok filter_matcher) /\
    main_stop_matcher args = (stop_calls, Ok stop_matcher) /\
    main args env =
      (option_calls args env ++ filter_calls ++ stop_calls
         ++ ProtocolLoadAll :: SessionNew filter_matcher stop_matcher
         :: calls_of (main_input args env (Session_init filter_matcher stop_matcher)),
       result_of (main_input args env (Session_init filter_matcher stop_matcher))).
Proof.
  intros Hg Hh.
  assert (Hf : exists filter_calls filter_matcher,
             main_filter_matcher args = (filter_calls, Ok filter_matcher)).
  { rewrite main_filter_matcher_cases.
    destruct (truthy (f args)) as [query|]; [destruct (parse query)|];
      eexists _, _; reflexivity. }
  assert (Hs : exists stop_calls stop_matcher,
             main_stop_matcher args = (stop_calls, Ok stop_matcher)).
  { rewrite main_stop_matcher_cases.
    destruct (truthy (b args)) as [query|]; [destruct (parse query)|];
      eexists _, _; reflexivity. }
  destruct Hf as (fc & fm & Hf). destruct Hs as (sc & sm & Hs).
  exists fc, fm, sc, sm. split; [exact Hf|]. split; [exact Hs|].
  unfold main, session_new. rewrite (main_options_eq _ _ Hg), Hh, Hf, Hs.
  unfold call, ret, bind, calls_of, result_of. cbn.
  destruct (main_input args env (Session_init fm sm)) as [calls r]. cbn.
  reflexivity.
Qed.

Lemma main_input_input_calls args env (session : S) :
  calls_all is_input_call (main_input args env session).
Proof.
  assert (Hpm : forall (s : S) input_file allow_shell tty,
            calls_all is_input_call (parse_messages s input_file allow_shell tty)).
  { intros. eapply calls_all_weaken; [|apply parse_messages_trace_calls].
    intros c Hc. destruct c; try discriminate Hc; reflexivity. }
  unfold main_input. destruct (check_gdb env).
  - apply calls_all_try; [|apply calls_all_call; reflexivity].
    apply calls_all_bind.
    + destruct (truthy (path args)); [apply calls_all_call; reflexivity
                                     | apply calls_all_ret].
    + intros _. apply calls_all_bind; [apply calls_all_call; reflexivity|].
      intros _. destruct (gdb_plugin_main session); constructor.
  - destruct (truthy (path args)) as [file_path|].
    + apply calls_all_bind; [|intros; apply calls_all_ret].
      unfold file_input_main.
      apply calls_all_bind; [apply calls_all_call; reflexivity | intros _].
      apply calls_all_try.
      * apply calls_all_bind.
        -- unfold builtin_open.
           apply calls_all_bind; [apply calls_all_call; reflexivity | intros _].
           destruct (fs_open env file_path); constructor.
        -- intros input_file. apply calls_all_bind; [apply Hpm|].
           intros [s' tty'].
           apply calls_all_bind; [apply calls_all_call; reflexivity|].
           intros; apply calls_all_ret.
      * apply calls_all_bind; [apply calls_all_call; reflexivity|].
        intros; apply calls_all_ret.
    + apply calls_all_bind.
      * destruct (truthy (b args)); [apply calls_all_call; reflexivity
                                    | apply calls_all_ret].
      * intros _. apply calls_all_bind; [|intros; apply calls_all_ret].
        unfold piped_input_main.
        apply calls_all_bind; [apply calls_all_call; reflexivity | intros _].
        apply calls_all_bind; [apply Hpm|]. intros [s' tty'].
        apply calls_all_ret.
Qed.

Lemma input_call_extracts (calls : list (Call Matcher)) :
  Forall (fun c => is_input_call c = true) calls ->
  constructed calls = [] /\ color_settings calls = [].
Proof.
  induction 1 as [|c calls Hc _ (IH1 & IH2)].
  - split; reflexivity.
  - destruct c; try discriminate Hc; simpl; auto.
Qed.

(** How [main_input] can end. *)
Lemma main_input_result args env (session : S) :
  match result_of (main_input args env session) with
  | Ok _ => True
  | Raise EOFError =>
      check_gdb env = false /\
      exists file_path input_file,
        truthy (path args) = Some file_path /\
        fs_open env file_path = Opened input_file
  | Raise OSError =>
      check_gdb env = false /\
      exists file_path,
        truthy (path args) = Some file_path /\
        fs_open env file_path = OtherOSError
  | Raise _ => False
  end.
Proof.
  unfold main_input. destruct (check_gdb env).
  - unfold try_except, output_warn, call, ret, bind, raise, result_of.
    destruct (truthy (path args)), (gdb_plugin_main session); cbn; exact I.
  - destruct (truthy (path args)) as [file_path|].
    + unfold file_input_main, builtin_open.
      destruct (fs_open env file_path) as [input_file| |] eqn:Hopen.
      * pose proof (parse_messages_result session input_file true (stdin env))
          as Hres.
        unfold output_log, output_error, call, ret, bind, try_except, raise,
          result_of in *.
        destruct (parse_messages session input_file true (stdin env))
          as [calls r]. cbn in Hres.
        destruct Hres as [(st & ->) | (_ & ->)].
        -- destruct st. cbn. exact I.
        -- cbn. split; [reflexivity|]. exists file_path, input_file.
           split; [reflexivity | exact Hopen].
      * cbn. exact I.
      * cbn. split; [reflexivity|]. exists file_path.
        split; [reflexivity | exact Hopen].
    + destruct (piped_input_main_returns session env) as (s' & Hres).
      unfold result_of in Hres.
      destruct (piped_input_main session env) as [calls r]. cbn in Hres.
      subst r. unfold output_warn, call, ret, bind, result_of.
      destruct (truthy (b args)); cbn; exact I.
Qed.

Lemma color_settings_app (calls1 calls2 : list (Call Matcher)) :
  color_settings (calls1 ++ calls2) = color_settings calls1 ++ color_settings calls2.
Proof. apply flat_map_app. Qed.

Lemma not_constructed_not_In (calls : list (Call Matcher)) fm sm :
  constructed calls = [] -> ~ In (SessionNew fm sm) calls.
Proof.
  intros H Hin.
  assert (Hc : In (fm, sm) (constructed calls)).
  { apply in_flat_map. exists (SessionNew fm sm). split; [exact Hin | left; reflexivity]. }
  rewrite H in Hc. exact Hc.
Qed.

Lemma truthy_Some_inv (o : option string) (s : string) :
  truthy o = Some s -> o = Some s /\ s <> "".
Proof.
  unfold truthy. destruct o as [s'|]; [|discriminate].
  destruct (String.eqb_spec s' ""); [discriminate|].
  intros H. injection H as <-. split; [reflexivity | assumption].
Qed.

Lemma option_calls_facts args env :
  color_settings (@option_calls Matcher S imports args env) =
    (if no_color args then [false] else if color_flag args then [true] else []) /\
  constructed (@option_calls Matcher S imports args env) = [] /\
  exists pre0 more,
    @option_calls Matcher S imports args env =
      pre0 ++ OutputNew (verbose args) (negb (supress args))
                (if check_gdb env then GdbOut else StdStdout)
                (if check_gdb env then GdbErr else StdStderr) :: more /\
    Forall (fun c => is_output_use c = false) pre0.
Proof.
  unfold option_calls.
  split; [|split].
  - destruct (check_gdb env), (no_color args), (color_flag args), (verbose args),
      (supress args), (matcher_help args); reflexivity.
  - destruct (check_gdb env), (no_color args), (color_flag args), (verbose args),
      (supress args), (matcher_help args); reflexivity.
  - eexists ((if check_gdb env then [GdbOutputStreams] else [])
             ++ (if no_color args then [SetColorOutput false]
                 else if color_flag args then [SetColorOutput true] else [])), _.
    split; [rewrite <- app_assoc; reflexivity|].
    destruct (check_gdb env), (no_color args), (color_flag args);
      repeat constructor.
Qed.

Lemma main_calls_start_with_options args env :
  gdb args = false ->
  exists rest,
    calls_of (main args env) = @option_calls Matcher S imports args env ++ rest.
Proof.
  intros Hg. destruct (matcher_help args) eqn:Hh.
  - exists []. unfold main. rewrite (main_options_eq _ _ Hg), Hh.
    cbn. rewrite app_nil_r. reflexivity.
  - destruct (main_unfold args env Hg Hh)
      as (fc & fm & sc & sm & _ & _ & ->).
    eexists. reflexivity.
Qed.

Lemma matcher_calls_facts args fc (fm : Matcher) sc (sm : Matcher) :
  main_filter_matcher args = (fc, Ok fm) ->
  main_stop_matcher args = (sc, Ok sm) ->
  constructed fc = [] /\ constructed sc = [] /\
  color_settings fc = [] /\ color_settings sc = [].
Proof.
  intros Hf Hs.
  rewrite main_filter_matcher_cases in Hf.
  rewrite main_stop_matcher_cases in Hs.
  destruct (truthy (f args)) as [q|]; [destruct (parse q)|];
    injection Hf as <- _;
    (destruct (truthy (b args)) as [q'|]; [destruct (parse q')|];
     injection Hs as <- _; repeat split; reflexivity).
Qed.

Lemma gdb_assertion_calls args env :
  gdb args = true ->
  calls_of (@main Matcher S matcher wl_session imports args env) = [].
Proof.
  intros Hg. unfold main, main_options. rewrite Hg. reflexivity.
Qed.

(** X9.  With the [--gdb] flag in its arguments [main] fails its assertion
    at once, before making any call. *)
Theorem gdb_flag_trips_the_assertion (args : Args) (env : Environ) :
  gdb args = true ->
  main args env =
    ([], Raise (AssertionError
           "GDB argument should have been intercepted by gdb.runner.parse_args()")).
Proof.
  intros Hg. unfold main, main_options. rewrite Hg. reflexivity.
Qed.

(** X10.  With [--matcher-help] [main] shows the help and exits with status
    1: the help is its last call, before it come only the option calls, so
    no query is parsed or reported, no protocol is loaded, no session is
    constructed and no input is read. *)
Theorem matcher_help_exits_with_status_1 (args : Args) (env : Environ) :
  gdb args = false -> matcher_help args = true ->
  result_of (main args env) = Raise (SystemExit 1) /\
  exists pre,
    calls_of (main args env) = pre ++ [MatcherPrintHelp] /\
    Forall (fun c => is_option_call c = true) pre.
Proof.
  intros Hg Hh. unfold main. rewrite (main_options_eq _ _ Hg), Hh.
  split; [reflexivity|].
  unfold option_calls. rewrite Hh. cbn [bind calls_of fst].
  eexists. split.
  - rewrite !app_assoc. reflexivity.
  - destruct (check_gdb env), (no_color args), (color_flag args), (verbose args),
      (supress args); cbn -[rainbow]; repeat constructor.
Qed.

(** X11.  A query that parses is simplified before it is used: the session
    is constructed with [simplify] of the parsed filter query (of the parsed
    break query) and that simplified matcher is the one logged. *)
Theorem parsed_queries_are_simplified (args : Args) (env : Environ) :
  gdb args = false -> matcher_help args = false ->
  (forall query parsed,
     f args = Some query -> query <> "" -> parse query = inr parsed ->
     exists stop_matcher,
       constructed (calls_of (main args env)) =
         [(simplify parsed, stop_matcher)] /\
       In (OutputLog ("Filter matcher: " ++ str (simplify parsed)))
          (calls_of (main args env))) /\
  (forall query parsed,
     b args = Some query -> query <> "" -> parse query = inr parsed ->
     exists filter_matcher,
       constructed (calls_of (main args env)) =
         [(filter_matcher, simplify parsed)] /\
       In (OutputLog ("Break matcher: " ++ str (simplify parsed)))
          (calls_of (main args env))).
Proof.
  intros Hg Hh.
  destruct (main_unfold args env Hg Hh)
    as (fc & fm & sc & sm & Hf & Hs & Hmain).
  destruct (main_constructs args env Hg Hh)
    as (fc' & fm' & sc' & sm' & Hf' & Hs' & Hc).
  rewrite Hf in Hf'. rewrite Hs in Hs'.
  injection Hf' as <- <-. injection Hs' as <- <-.
  split.
  - intros query parsed Hq Hne Hparse.
    rewrite main_filter_matcher_cases, Hq, (truthy_nonempty _ Hne), Hparse in Hf.
    injection Hf as <- <-. exists sm. split; [exact Hc|].
    rewrite Hmain. unfold calls_of. cbn [fst].
    apply in_or_app. right. left. reflexivity.
  - intros query parsed Hq Hne Hparse.
    rewrite main_stop_matcher_cases, Hq, (truthy_nonempty _ Hne), Hparse in Hs.
    injection Hs as <- <-. exists fm. split; [exact Hc|].
    rewrite Hmain. unfold calls_of. cbn [fst].
    apply in_or_app. right. apply in_or_app. right. left. reflexivity.
Qed.

(** X12.  An option given as the empty string counts as not given: with
    [-f], [-b] or [--load] set to the empty string [main] does exactly what
    it does without that option. *)
Theorem empty_option_is_no_option (args : Args) (env : Environ) :
  @main Matcher S matcher wl_session imports (with_f (Some "") args) env =
    main (with_f None args) env /\
  @main Matcher S matcher wl_session imports (with_b (Some "") args) env =
    main (with_b None args) env /\
  @main Matcher S matcher wl_session imports (with_path (Some "") args) env =
    main (with_path None args) env.
Proof. repeat split; reflexivity. Qed.

(** X13.  Inside gdb [main] leaves the input to the plugin: after
    constructing the session it warns if a [--load] file was given, which
    it then ignores, calls the plugin's [main], prints a traceback if that
    raised, and makes no other call; whatever the plugin does, [main]
    returns normally. *)
Theorem inside_gdb_the_plugin_reads_the_input (args : Args) (env : Environ) :
  gdb args = false -> matcher_help args = false -> check_gdb env = true ->
  result_of (main args env) = Ok tt /\
  exists before filter_matcher stop_matcher,
    constructed before = [] /\
    calls_of (main args env) =
      before ++ SessionNew filter_matcher stop_matcher
        :: (match path args with
            | Some file_path =>
                if String.eqb file_path "" then []
                else [OutputWarn "Ignoring load file because we're inside GDB"]
            | None => []
            end)
        ++ GdbPluginMain
        :: (match gdb_plugin_main (Session_init filter_matcher stop_matcher) with
            | inl _ => [TracebackPrintExc]
            | inr _ => []
            end).
Proof.
  intros Hg Hh Hgdb.
  destruct (main_runs args env Hg Hh)
    as (options & fc & fm & sc & sm & _ & _ & Hcalls & Hres & Hbefore).
  assert (Hinput : forall session : S,
            main_input args env session =
            ((match path args with
              | Some file_path =>
                  if String.eqb file_path "" then []
                  else [OutputWarn "Ignoring load file because we're inside GDB"]
              | None => []
              end)
             ++ GdbPluginMain
             :: (match gdb_plugin_main session with
                 | inl _ => [TracebackPrintExc]
                 | inr _ => []
                 end), Ok tt)).
  { intros session. unfold main_input. rewrite Hgdb.
    unfold truthy, try_except, output_warn, call, ret, bind, raise.
    destruct (path args) as [file_path|];
      [destruct (String.eqb file_path "")|];
      destruct (gdb_plugin_main session); reflexivity. }
  rewrite Hres, Hcalls, Hinput. split; [reflexivity|].
  eexists _, fm, sm. split; [exact Hbefore | reflexivity].
Qed.

(** X14.  [main] never writes through the output object before it has
    constructed it: every [log], [warn] or [error] call comes after the
    call that constructs the output. *)
Theorem output_is_constructed_before_it_is_used
  (args : Args) (env : Environ) (pre post : list (Call Matcher))
  (c : Call Matcher) :
  calls_of (main args env) = pre ++ c :: post ->
  is_output_use c = true ->
  exists verbose unprocessed_output out_stream err_stream,
    In (OutputNew verbose unprocessed_output out_stream err_stream) pre.
Proof.
  intros H Hc. destruct (gdb args) eqn:Hg.
  - rewrite (gdb_assertion_calls args env Hg) in H. destruct pre; discriminate H.
  - destruct (main_calls_start_with_options args env Hg) as (rest & Heq).
    destruct (option_calls_facts args env)
      as (_ & _ & pre0 & more & Hopt & Hpre0).
    rewrite Heq, Hopt, <- app_assoc in H.
    apply split_after in H.
    + destruct H as (mid & -> & H).
      destruct mid as [|m mid]; simpl in H.
      * injection H as <- _. discriminate Hc.
      * injection H as <- _. eexists _, _, _, _.
        apply in_or_app. right. left. reflexivity.
    + intros Hin. rewrite Forall_forall in Hpre0.
      rewrite (Hpre0 _ Hin) in Hc. discriminate Hc.
Qed.

(** How [main] can end once the command line has been parsed. *)
Lemma main_result_cases (args : Args) (env : Environ) :
  match result_of (main args env) with
  | Ok _ => gdb args = false /\ matcher_help args = false
  | Raise (AssertionError _) => gdb args = true
  | Raise (SystemExit code) =>
      code = 1%Z /\ gdb args = false /\ matcher_help args = true
  | Raise EOFError =>
      gdb args = false /\ matcher_help args = false /\ check_gdb env = false /\
      exists file_path input_file,
        path args = Some file_path /\ file_path <> "" /\
        fs_open env file_path = Opened input_file
  | Raise OSError =>
      gdb args = false /\ matcher_help args = false /\ check_gdb env = false /\
      exists file_path,
        path args = Some file_path /\ file_path <> "" /\
        fs_open env file_path = OtherOSError
  | Raise FileNotFoundError => False
  end.
Proof.
  destruct (gdb args) eqn:Hg.
  - unfold main, main_options. rewrite Hg. reflexivity.
  - destruct (matcher_help args) eqn:Hh.
    + unfold main. rewrite (main_options_eq _ _ Hg), Hh. cbn. auto.
    + destruct (main_unfold args env Hg Hh)
        as (fc & fm & sc & sm & _ & _ & ->).
      unfold result_of at 1. cbn [snd].
      pose proof (main_input_result args env (Session_init fm sm)) as Hres.
      destruct (result_of (main_input args env (Session_init fm sm)))
        as [[]|[]]; try contradiction.
      * split; reflexivity.
      * destruct Hres as (Hgdb & p & file & Hp & Hopen).
        apply truthy_Some_inv in Hp. destruct Hp as (Hp & Hne).
        repeat split; try assumption. exists p, file. repeat split; assumption.
      * destruct Hres as (Hgdb & p & Hp & Hopen).
        apply truthy_Some_inv in Hp. destruct Hp as (Hp & Hne).
        repeat split; try assumption. exists p. repeat split; assumption.
Qed.

Lemma no_color_settings_of_main args env :
  gdb args = false ->
  color_settings (calls_of (@main Matcher S matcher wl_session imports args env)) =
  if no_color args then [false]
  else if color_flag args then [true]
  else [].
Proof.
  intros Hg.
  destruct (option_calls_facts args env) as (Hcolor & _).
  destruct (matcher_help args) eqn:Hh.
  - unfold main. rewrite (main_options_eq _ _ Hg), Hh. exact Hcolor.
  - destruct (main_unfold args env Hg Hh)
      as (fc & fm & sc & sm & Hf & Hs & ->).
    unfold calls_of at 1. cbn [fst].
    pose proof (main_input_input_calls args env (Session_init fm sm)) as Hin.
    apply input_call_extracts in Hin. destruct Hin as (_ & Hin).
    destruct (matcher_calls_facts args fc fm sc sm Hf Hs)
      as (_ & _ & Hfc & Hsc).
    change (ProtocolLoadAll :: SessionNew fm sm :: ?l)
      with ([@ProtocolLoadAll Matcher; SessionNew fm sm] ++ l).
    rewrite !color_settings_app, Hcolor, Hfc, Hsc, Hin. simpl.
    rewrite app_nil_r. reflexivity.
Qed.

(** X16.  [--no-color] wins over [--color]: over the whole of [main],
    [set_color_output] is called at most once, with [False] when
    [--no-color] is given, with [True] when only [--color] is given, and not
    at all otherwise. *)
Theorem no_color_wins_over_color (args : Args) (env : Environ) :
  color_settings (calls_of (main args env)) =
  if gdb args then []
  else if no_color args then [false]
  else if color_flag args then [true]
  else [].
Proof.
  destruct (gdb args) eqn:Hg.
  - rewrite (gdb_assertion_calls args env Hg). reflexivity.
  - apply no_color_settings_of_main. exact Hg.
Qed.

(** X17.  The session is the last thing [main] sets up.  Before the call
    that constructs it come the construction of the output object and the
    protocol load, and no other session; after it [main] only reads and
    drives the input: it constructs nothing more and sets no option. *)
Theorem session_is_constructed_last_and_once
  (args : Args) (env : Environ) (pre post : list (Call Matcher))
  (filter_matcher stop_matcher : Matcher) :
  calls_of (main args env) =
    pre ++ SessionNew filter_matcher stop_matcher :: post ->
  constructed pre = [] /\
  In ProtocolLoadAll pre /\
  (exists verbose unprocessed_output out_stream err_stream,
     In (OutputNew verbose unprocessed_output out_stream err_stream) pre) /\
  Forall (fun c => is_input_call c = true) post.
Proof.
  intros H. destruct (gdb args) eqn:Hg.
  - rewrite (gdb_assertion_calls args env Hg) in H. destruct pre; discriminate H.
  - destruct (option_calls_facts args env)
      as (_ & Hcopt & pre0 & more & Hopt & _).
    destruct (matcher_help args) eqn:Hh.
    + exfalso. unfold main in H.
      rewrite (main_options_eq _ _ Hg), Hh in H. cbn [bind calls_of fst] in H.
      apply (not_constructed_not_In _ filter_matcher stop_matcher Hcopt).
      rewrite H. apply in_elt.
    + destruct (main_unfold args env Hg Hh)
        as (fc & fm & sc & sm & Hf & Hs & Hmain).
      pose proof (main_input_input_calls args env (Session_init fm sm)) as Hin.
      destruct (input_call_extracts _ Hin) as (Hci & _).
      destruct (matcher_calls_facts args fc fm sc sm Hf Hs)
        as (Hcf & Hcs & _ & _).
      set (before := option_calls args env ++ fc ++ sc
                       ++ [@ProtocolLoadAll Matcher]).
      assert (Hb : constructed before = []).
      { unfold before. rewrite !constructed_app, Hcopt, Hcf, Hcs. reflexivity. }
      assert (Heq : calls_of (main args env) =
                    before ++ SessionNew fm sm
                      :: calls_of (main_input args env (Session_init fm sm))).
      { rewrite Hmain. unfold before, calls_of at 1. cbn [fst].
        rewrite <- !app_assoc. reflexivity. }
      rewrite Heq in H.
      apply split_after in H;
        [|apply not_constructed_not_In; exact Hb].
      destruct H as (mid & -> & H).
      destruct mid as [|m mid]; simpl in H.
      * injection H as _ _ <-. rewrite app_nil_r.
        split; [exact Hb|]. split; [|split].
        -- unfold before. apply in_or_app. right. apply in_or_app. right.
           apply in_or_app. right. left. reflexivity.
        -- unfold before. rewrite Hopt. eexists _, _, _, _.
           apply in_or_app. left. apply in_elt.
        -- exact Hin.
      * exfalso. injection H as _ H.
        apply (not_constructed_not_In _ filter_matcher stop_matcher Hci).
        rewrite H. apply in_elt.
Qed.

End MainMore.

(** ** The script entry *)

Section Script.

Context {Matcher S R : Type}.
Context {matcher : MatcherModule Matcher}.
Context {wl_session : Session Matcher S}.
Context {imports : Imports S}.
Context {runner : GdbRunner R}.

Lemma script_color_settings_app (calls1 calls2 : list (ScriptCall Matcher R)) :
  script_color_settings (calls1 ++ calls2) =
  script_color_settings calls1 ++ script_color_settings calls2.
Proof. apply flat_map_app. Qed.

Lemma script_color_settings_driver (calls : list (Call Matcher)) :
  script_color_settings (map (@DriverCall Matcher R) calls) = color_settings calls.
Proof.
  induction calls as [|c calls IH]; simpl; [reflexivity|].
  fold (@script_color_settings Matcher R). rewrite IH.
  destruct c; reflexivity.
Qed.

(** X18.  Which colour setting is in force when the script has run [main]
    (inside gdb, or when the gdb runner does not take over): the last call
    to [set_color_output] is with [False] whenever [--no-color] is given,
    even on a terminal or inside gdb; otherwise it is with [True] when
    [--color] is given, or the script runs inside gdb, or standard output is
    a terminal; otherwise there is no call at all. *)
Theorem colour_setting_in_force (proc : Process) (args : Args) (default : bool) :
  gdb args = false ->
  (check_gdb (environ proc) = true \/ runner_parse_args (argv proc) = None) ->
  last (script_color_settings (fst (script proc args))) default =
  if no_color args then false
  else if color_flag args || check_gdb (environ proc) || stdout_isatty proc
       then true
       else default.
Proof.
  intros Hg Hmain.
  pose proof (no_color_settings_of_main args (environ proc) Hg) as Hcolor.
  unfold script, calls_of in *.
  destruct (main args (environ proc)) as [calls r]. cbn [fst] in Hcolor.
  destruct (check_gdb (environ proc)) eqn:Hgdb; cbn [negb orb].
  - cbn [fst]. rewrite !script_color_settings_app, script_color_settings_driver,
      Hcolor. simpl.
    destruct (no_color args), (color_flag args); reflexivity.
  - destruct Hmain as [Hmain | Hmain]; [discriminate Hmain|].
    rewrite Hmain. cbn [fst].
    rewrite !script_color_settings_app, script_color_settings_driver, Hcolor.
    destruct (stdout_isatty proc), (no_color args), (color_flag args);
      reflexivity.
Qed.

End Script.

(** ** Concrete runs for the further properties *)

Lemma connection_opened_at_its_first_record_witness :
  let pre := [@OutputLog Query "Parsing messages"; SessionOpen 1 (Some false) 3;
              SessionMessage 1 (get_registry_at 3)] in
  let post := [@SessionMessage Query 2 (sync_sent 4);
               SessionMessage 1 (sync_sent 7);
               SessionClose 1 7; SessionClose 2 7; OutputLog "Done"] in
  calls_of (run_parse_messages two_connection_trace fresh_session false []) =
    pre ++ SessionOpen 2 None 4 :: post /\
  ~ In 2 (map fst (delivered pre)) /\
  exists msg post',
    post = SessionMessage 2 msg :: post' /\
    4 = timestamp msg /\
    None = (if String.eqb (name msg) "get_registry"
            then Some (negb (sent msg)) else None).
Proof.
  intros pre post. split; [reflexivity|].
  apply (@connection_opened_at_its_first_record
           Query (SpecSession Query) query_session
           (fixed_imports two_connection_trace) fresh_session [] false []
           pre post 2 None 4).
  reflexivity.
Defined.

Lemma opened_file_witness :
  fs_open file_env "trace.log" =
    Opened ["[1.0]  -> wl_display@1.get_registry(new id wl_registry@2)"] /\
  let calls := calls_of (@file_input_main Query (SpecSession Query) query_session
                           (fixed_imports scenario_trace) fresh_session
                           "trace.log" file_env) in
  delivered calls = scenario_trace /\
  match result_of (@file_input_main Query (SpecSession Query) query_session
                     (fixed_imports scenario_trace) fresh_session
                     "trace.log" file_env) with
  | Ok _ => exists pre, calls = pre ++ [FileClose] /\ ~ In FileClose pre
  | Raise e => e = EOFError /\ ~ In FileClose calls
  end.
Proof.
  split; [reflexivity|].
  apply (@opened_file_is_closed_only_if_the_shell_returns
           Query (SpecSession Query) query_session
           (fixed_imports scenario_trace) fresh_session "trace.log" file_env
           ["[1.0]  -> wl_display@1.get_registry(new id wl_registry@2)"]).
  reflexivity.
Defined.

Lemma other_open_errors_witness :
  fs_open file_env "locked.log" = OtherOSError /\
  @file_input_main Query (SpecSession Query) query_session
    (fixed_imports scenario_trace) fresh_session "locked.log" file_env =
    ([OutputLog "Opening locked.log"; Open "locked.log" OtherOSError],
     Raise OSError).
Proof.
  split; [reflexivity|].
  apply (@other_open_errors_escape
           Query (SpecSession Query) query_session
           (fixed_imports scenario_trace) fresh_session "locked.log" file_env).
  reflexivity.
Defined.

Lemma gdb_flag_witness :
  gdb gdb_flag_args = true /\
  run_main scenario_trace gdb_flag_args plain_env =
    ([], Raise (AssertionError
           "GDB argument should have been intercepted by gdb.runner.parse_args()")).
Proof.
  split; [reflexivity|].
  apply (@gdb_flag_trips_the_assertion
           Query (SpecSession Query) query_module query_session
           (fixed_imports scenario_trace) gdb_flag_args plain_env).
  reflexivity.
Defined.

Lemma matcher_help_witness :
  gdb matcher_help_args = false /\ matcher_help matcher_help_args = true /\
  result_of (run_main scenario_trace matcher_help_args plain_env) =
    Raise (SystemExit 1) /\
  exists pre,
    calls_of (run_main scenario_trace matcher_help_args plain_env) =
      pre ++ [MatcherPrintHelp] /\
    Forall (fun c => is_option_call c = true) pre.
Proof.
  split; [reflexivity|]. split; [reflexivity|].
  apply (@matcher_help_exits_with_status_1
           Query (SpecSession Query) query_module query_session
           (fixed_imports scenario_trace) matcher_help_args plain_env);
    reflexivity.
Defined.

Lemma parsed_queries_witness :
  (exists stop_matcher,
     constructed (calls_of (run_main scenario_trace parsed_queries_args plain_env)) =
       [(QName "wl_surface", stop_matcher)] /\
     In (OutputLog "Filter matcher: wl_surface")
        (calls_of (run_main scenario_trace parsed_queries_args plain_env))) /\
  (exists filter_matcher,
     constructed (calls_of (run_main scenario_trace parsed_queries_args plain_env)) =
       [(filter_matcher, QName "destroy")] /\
     In (OutputLog "Break matcher: destroy")
        (calls_of (run_main scenario_trace parsed_queries_args plain_env))).
Proof.
  destruct (@parsed_queries_are_simplified
              Query (SpecSession Query) query_module query_session
              (fixed_imports scenario_trace) parsed_queries_args plain_env
              eq_refl eq_refl) as [Hfilter Hbreak].
  split.
  - apply (Hfilter "wl_surface" (QName "wl_surface"));
      [reflexivity | discriminate | reflexivity].
  - apply (Hbreak "destroy" (QName "destroy"));
      [reflexivity | discriminate | reflexivity].
Defined.

Lemma inside_gdb_witness :
  gdb load_missing_args = false /\ matcher_help load_missing_args = false /\
  check_gdb gdb_env = true /\
  result_of (run_main scenario_trace load_missing_args gdb_env) = Ok tt /\
  calls_of (run_main scenario_trace load_missing_args gdb_env) =
    [GdbOutputStreams; OutputNew false true GdbOut GdbErr;
     OutputLog "Showing unparsable output"; ProtocolLoadAll;
     SessionNew QAlways QNever;
     OutputWarn "Ignoring load file because we're inside GDB";
     GdbPluginMain].
Proof.
  split; [reflexivity|]. split; [reflexivity|]. split; [reflexivity|].
  destruct (@inside_gdb_the_plugin_reads_the_input
              Query (SpecSession Query) query_module query_session
              (fixed_imports scenario_trace) load_missing_args gdb_env
              eq_refl eq_refl eq_refl) as (Hres & _).
  split; [exact Hres | reflexivity].
Defined.

Lemma output_before_use_witness :
  calls_of (run_main [] plain_args plain_env) =
    [OutputNew false true StdStdout StdStderr]
    ++ OutputLog "Showing unparsable output"
    :: [ProtocolLoadAll; SessionNew QAlways QNever;
        OutputLog "Getting input piped from stdin";
        OutputLog "Parsing messages"; OutputLog "Done"] /\
  exists verbose unprocessed_output out_stream err_stream,
    In (@OutputNew Query verbose unprocessed_output out_stream err_stream)
       [OutputNew false true StdStdout StdStderr].
Proof.
  split; [reflexivity|].
  apply (@output_is_constructed_before_it_is_used
           Query (SpecSession Query) query_module query_session
           (fixed_imports []) plain_args plain_env
           [OutputNew false true StdStdout StdStderr]
           [ProtocolLoadAll; SessionNew QAlways QNever;
            OutputLog "Getting input piped from stdin";
            OutputLog "Parsing messages"; OutputLog "Done"]
           (OutputLog "Showing unparsable output"));
    reflexivity.
Defined.

Lemma session_constructed_last_witness :
  let pre := [@OutputNew Query false true StdStdout StdStderr;
              OutputLog "Showing unparsable output"; ProtocolLoadAll] in
  let post := [@OutputLog Query "Getting input piped from stdin";
               OutputLog "Parsing messages"; OutputLog "Done"] in
  calls_of (run_main [] plain_args plain_env) =
    pre ++ SessionNew QAlways QNever :: post /\
  constructed pre = [] /\
  In ProtocolLoadAll pre /\
  (exists verbose unprocessed_output out_stream err_stream,
     In (OutputNew verbose unprocessed_output out_stream err_stream) pre) /\
  Forall (fun c => is_input_call c = true) post.
Proof.
  intros pre post. split; [reflexivity|].
  apply (@session_is_constructed_last_and_once
           Query (SpecSession Query) query_module query_session
           (fixed_imports []) plain_args plain_env pre post QAlways QNever).
  reflexivity.
Defined.

Lemma colour_setting_witness :
  gdb no_color_args = false /\
  runner_parse_args (GdbRunner := flag_runner) (argv terminal_process) = None /\
  script_color_settings
    (fst (@script Query (SpecSession Query) (list string) query_module
            query_session (fixed_imports []) flag_runner
            terminal_process no_color_args)) = [true; false] /\
  last (script_color_settings
          (fst (@script Query (SpecSession Query) (list string) query_module
                  query_session (fixed_imports []) flag_runner
                  terminal_process no_color_args))) true = false.
Proof.
  split; [reflexivity|]. split; [reflexivity|]. split; [reflexivity|].
  apply (@colour_setting_in_force
           Query (SpecSession Query) (list string) query_module query_session
           (fixed_imports []) flag_runner terminal_process no_color_args true).
  - reflexivity.
  - right. reflexivity.
Defined.

(** * The role a connection ends up with *)

(** ** The session the driver leaves behind, for any session *)

Section SessionAfterLoops.

Context {Matcher S : Type}.
Context {matcher : MatcherModule Matcher}.
Context {wl_session : Session Matcher S}.
Context {imports : Imports S}.




End SessionAfterLoops.

(** ** Roles in the modelled session *)

Section Roles.

Context {Matcher : Type}.
Variable evaluate : Matcher -> Message -> bool.























End Roles.

(** * [main] with its command line parser *)

Section MainWithParser.

Context {Matcher S : Type}.
Context {matcher : MatcherModule Matcher}.
Context {wl_session : Session Matcher S}.
Context {imports : Imports S}.
Context {parser : ArgParser}.

(** X15.  The ways [main] can end.  It returns normally; or the argument
    parser ends it with the parser's exit status; or it fails its assertion
    (only when the parsed arguments carry the [--gdb] flag); or it exits
    with status 1 after [--matcher-help]; or, outside gdb and with a
    [--load] file only, it lets through the [EOFError] of the shell after
    the file was opened, or the error of an [open] that failed for another
    reason than a missing file.  A missing file never makes it fail. *)
Theorem main_ends_in_one_of_these_ways (command_line : list string)
  (env : Environ) :
  match result_of (main_from_command_line command_line env) with
  | Ok _ =>
      exists args,
        parser_parse_args command_line = inr args /\
        gdb args = false /\ matcher_help args = false
  | Raise (AssertionError _) =>
      exists args,
        parser_parse_args command_line = inr args /\ gdb args = true
  | Raise (SystemExit status) =>
      parser_parse_args command_line = inl status \/
      exists args,
        parser_parse_args command_line = inr args /\
        status = 1%Z /\ gdb args = false /\ matcher_help args = true
  | Raise EOFError =>
      exists args,
        parser_parse_args command_line = inr args /\
        gdb args = false /\ matcher_help args = false /\
        check_gdb env = false /\
        exists file_path input_file,
          path args = Some file_path /\ file_path <> "" /\
          fs_open env file_path = Opened input_file
  | Raise OSError =>
      exists args,
        parser_parse_args command_line = inr args /\
        gdb args = false /\ matcher_help args = false /\
        check_gdb env = false /\
        exists file_path,
          path args = Some file_path /\ file_path <> "" /\
          fs_open env file_path = OtherOSError
  | Raise FileNotFoundError => False
  end.
Proof.
  unfold main_from_command_line.
  destruct (parser_parse_args command_line) as [status | args] eqn:Hparse.
  - cbn. left. reflexivity.
  - pose proof (main_result_cases args env) as Hcases.
    destruct (result_of (main args env)) as [[]|[| | | msg | status]].
    + exists args. split; [reflexivity | exact Hcases].
    + exists args. split; [reflexivity | exact Hcases].
    + exact Hcases.
    + exists args. split; [reflexivity | exact Hcases].
    + exists args. split; [reflexivity | exact Hcases].
    + right. exists args. split; [reflexivity | exact Hcases].
Qed.

End MainWithParser.

(** ** Concrete runs for the role and for the parser *)


(** The parser's own exits reach the caller with the parser's status. *)
Example parser_exits_pass_through :
  result_of (@main_from_command_line Query (SpecSession Query) query_module
               query_session (fixed_imports []) flag_parser
               ["wayland-debug"; "--bogus"] plain_env) = Raise (SystemExit 2) /\
  result_of (@main_from_command_line Query (SpecSession Query) query_module
               query_session (fixed_imports []) flag_parser
               ["wayland-debug"; "-h"] plain_env) = Raise (SystemExit 0) /\
  result_of (@main_from_command_line Query (SpecSession Query) query_module
               query_session (fixed_imports []) flag_parser
               ["wayland-debug"; "--matcher-help"] plain_env) = Raise (SystemExit 1) /\
  result_of (@main_from_command_line Query (SpecSession Query) query_module
               query_session (fixed_imports []) flag_parser
               ["wayland-debug"] plain_env) = Ok tt.
Proof. repeat split; reflexivity. Qed.
